(** * Aura voice assistant: audio codec, playback scheduling, transcript
      accumulation and session lifecycle of [App.tsx]

    The development embeds the non-UI part of the component [App]:
    the helpers [decode], [encode], [decodeAudioData], [createBlob],
    [ensureAudioContext], and the handlers [connect], [disconnect],
    [onopen], [onmessage], [onerror], [onclose].

    Conventions.
    - A [Uint8Array] is a [list Z] of values in [0, 256); a JS binary
      string (all char codes below 256) is a Rocq [string].
    - Audio samples and clock times are rationals: every float32 sample
      [s] is a dyadic rational, [s * 32768] and [n / 32768.0] are exact
      in binary floating point, so the codec path is computed exactly.
      Clock arithmetic ([Math.max], [+=]) is taken over exact rationals.
    - React state and refs are fields of one record; the browser objects
      the handlers touch (audio contexts, media streams, buffer source
      nodes, live sessions, capture graphs) live in the same record as
      append-only stores indexed by creation order.
    - Each handler invocation runs to completion: the only [await] in
      [onmessage] is on [decodeAudioData], which never suspends. *)

From Stdlib Require Import ZArith QArith Qabs Qminmax List String Ascii Bool Lia.
From Stdlib Require Import ListSet Lqa Permutation.
Import ListNotations.

Local Open Scope Z_scope.

(** ** Base64 transport ([btoa] / [atob]) and the PCM16 codec *)

Module Codec.

(** *** Character codes *)

Definition charCodeAt (c : ascii) : Z := Z.of_N (N_of_ascii c).

(** [String.fromCharCode] restricted to the codes a [Uint8Array] holds. *)
Definition fromCharCode (n : Z) : ascii := ascii_of_N (Z.to_N n).

(** *** The platform's [btoa] *)

Definition b64char (n : Z) : ascii :=
  if n <? 26 then fromCharCode (65 + n)
  else if n <? 52 then fromCharCode (97 + (n - 26))
  else if n <? 62 then fromCharCode (48 + (n - 52))
  else if n =? 62 then "+"%char
  else "/"%char.

Definition pad : ascii := "="%char.

Fixpoint btoa_codes (l : list Z) : list ascii :=
  match l with
  | [] => []
  | [a] =>
      [b64char (a / 4); b64char ((a mod 4) * 16); pad; pad]
  | [a; b] =>
      [b64char (a / 4); b64char ((a mod 4) * 16 + b / 16);
       b64char ((b mod 16) * 4); pad]
  | a :: b :: c :: r =>
      b64char (a / 4) :: b64char ((a mod 4) * 16 + b / 16)
      :: b64char ((b mod 16) * 4 + c / 64) :: b64char (c mod 64)
      :: btoa_codes r
  end.

Definition btoa (binary : string) : string :=
  string_of_list_ascii
    (btoa_codes (map charCodeAt (list_ascii_of_string binary))).

(** *** The platform's [atob] (forgiving base64 decode) *)

Definition b64val (c : ascii) : option Z :=
  let n := charCodeAt c in
  if (65 <=? n) && (n <=? 90) then Some (n - 65)
  else if (97 <=? n) && (n <=? 122) then Some (n - 97 + 26)
  else if (48 <=? n) && (n <=? 57) then Some (n - 48 + 52)
  else if n =? 43 then Some 62
  else if n =? 47 then Some 63
  else None.

Definition is_whitespace (c : ascii) : bool :=
  let n := charCodeAt c in
  (n =? 9) || (n =? 10) || (n =? 12) || (n =? 13) || (n =? 32).

Definition is_pad (c : ascii) : bool := charCodeAt c =? 61.

(** When the length is a multiple of four, one or two trailing [=] are
    dropped. *)
Definition strip_padding (l : list ascii) : list ascii :=
  if (Z.of_nat (List.length l) mod 4 =? 0) then
    match rev l with
    | p1 :: p2 :: r =>
        if is_pad p1 then (if is_pad p2 then rev r else rev (p2 :: r))
        else l
    | [p1] => if is_pad p1 then [] else l
    | [] => l
    end
  else l.

Fixpoint sextets (l : list ascii) : option (list Z) :=
  match l with
  | [] => Some []
  | c :: r =>
      match b64val c, sextets r with
      | Some v, Some vs => Some (v :: vs)
      | _, _ => None
      end
  end.

(** Six bits are appended per character and every full 24-bit group is
    emitted as three bytes; 12 or 18 left-over bits give one or two
    bytes, the remaining low bits are discarded. *)
Fixpoint atob_sextets (l : list Z) : list Z :=
  match l with
  | s1 :: s2 :: s3 :: s4 :: r =>
      (s1 * 4 + s2 / 16) :: ((s2 mod 16) * 16 + s3 / 4)
      :: ((s3 mod 4) * 64 + s4) :: atob_sextets r
  | [s1; s2; s3] => [s1 * 4 + s2 / 16; (s2 mod 16) * 16 + s3 / 4]
  | [s1; s2] => [s1 * 4 + s2 / 16]
  | _ => []
  end.

(** [None] is the [InvalidCharacterError] exception. *)
Definition atob (base64 : string) : option string :=
  let l := filter (fun c => negb (is_whitespace c))
                  (list_ascii_of_string base64) in
  let l := strip_padding l in
  if Z.of_nat (List.length l) mod 4 =? 1 then None
  else
    match sextets l with
    | None => None
    | Some vs =>
        Some (string_of_list_ascii (map fromCharCode (atob_sextets vs)))
    end.

(** *** [decode] and [encode] of the source *)

(** [decode(base64)]: the bytes of [atob(base64)]. *)
Definition decode (base64 : string) : option (list Z) :=
  match atob base64 with
  | None => None
  | Some binaryString =>
      Some (map charCodeAt (list_ascii_of_string binaryString))
  end.

(** [encode(bytes)]: [btoa] of the binary string built from the bytes. *)
Definition encode (bytes : list Z) : string :=
  let binary :=
    fold_left (fun acc b => acc ++ String (fromCharCode b) EmptyString)%string
              bytes EmptyString in
  btoa binary.

(** *** Typed-array views *)

(** Storing a number into an [Int16Array]: truncate toward zero, wrap
    modulo 2^16, read as signed. *)
Definition ToInt16 (x : Q) : Z :=
  let int := Z.quot (Qnum x) (Z.pos (Qden x)) in
  let int16bit := int mod 65536 in
  if int16bit >=? 32768 then int16bit - 65536 else int16bit.

(** [new Uint8Array(int16.buffer)]: two bytes per element, low byte
    first. *)
Definition Uint8_of_Int16 (l : list Z) : list Z :=
  flat_map (fun v => let u := v mod 65536 in [u mod 256; u / 256]) l.

(** [new Int16Array(data.buffer)]: a [RangeError] ([None]) when the byte
    length is odd. *)
Fixpoint Int16_of_Uint8 (l : list Z) : option (list Z) :=
  match l with
  | [] => Some []
  | [_] => None
  | lo :: hi :: r =>
      match Int16_of_Uint8 r with
      | None => None
      | Some vs =>
          let u := lo + 256 * hi in
          Some ((if u >=? 32768 then u - 65536 else u) :: vs)
      end
  end.

(** *** [createBlob] *)

Record Blob := { data : string; mimeType : string }.

Definition createBlob (samples : list Q) : Blob :=
  let int16 := map (fun s => ToInt16 (s * 32768)) samples in
  {| data := encode (Uint8_of_Int16 int16);
     mimeType := "audio/pcm;rate=16000" |}.

(** *** [decodeAudioData] *)

Record AudioBuffer := {
  numberOfChannels : nat;
  frames : nat;
  bufferRate : Z;
  channelData : list (list Q)
}.

(** [buffer.duration], in seconds. *)
Definition duration (b : AudioBuffer) : Q :=
  Z.of_nat (frames b) # Z.to_pos (bufferRate b).

(** [ctx.createBuffer] raises [NotSupportedError] for a zero channel
    count or a zero length; the two loops then fill every channel. *)
Definition decodeAudioData (bytes : list Z) (sampleRate : Z)
    (numChannels : nat) : option AudioBuffer :=
  match Int16_of_Uint8 bytes with
  | None => None
  | Some dataInt16 =>
      let frameCount := (List.length dataInt16 / numChannels)%nat in
      if ((numChannels =? 0) || (frameCount =? 0))%nat then None
      else
        Some {| numberOfChannels := numChannels;
                frames := frameCount;
                bufferRate := sampleRate;
                channelData :=
                  map (fun channel =>
                         map (fun i =>
                                inject_Z
                                  (nth (i * numChannels + channel)%nat
                                       dataInt16 0%Z) / 32768)%Q
                             (seq 0 frameCount))
                      (seq 0 numChannels) |}
  end.

(** *** Encode, then decode *)

(** The samples a block comes back as after [createBlob], [decode] and
    [decodeAudioData] (one channel). *)
Definition roundtrip (samples : list Q) : option (list Q) :=
  match decode (data (createBlob samples)) with
  | None => None
  | Some bytes =>
      match decodeAudioData bytes 24000 1 with
      | None => None
      | Some buffer => nth_error (channelData buffer) 0
      end
  end.

(** One quantization step. *)
Definition quantum : Q := 1 # 32768.

(** *** Ranges and the shape of [btoa]'s output *)

Definition is_byte (b : Z) : Prop := 0 <= b < 256.

Definition is_sextet (v : Z) : Prop := 0 <= v < 64.

Definition is_int16 (v : Z) : Prop := -32768 <= v < 32768.

(** A sample below full scale. *)
Definition in_half_open_range (s : Q) : Prop := (-1 <= s /\ s < 1)%Q.

(** The 64 sextets. *)
Definition sextet_range : list Z := map Z.of_nat (seq 0 64).

(** The sextets [btoa] writes for a byte list, before padding. *)
Fixpoint sextets_of (l : list Z) : list Z :=
  match l with
  | [] => []
  | [a] => [a / 4; (a mod 4) * 16]
  | [a; b] => [a / 4; (a mod 4) * 16 + b / 16; (b mod 16) * 4]
  | a :: b :: c :: r =>
      a / 4 :: (a mod 4) * 16 + b / 16 :: (b mod 16) * 4 + c / 64
      :: c mod 64 :: sextets_of r
  end.

(** The padding [btoa] appends. *)
Fixpoint padding_of (l : list Z) : list ascii :=
  match l with
  | [] => []
  | [_] => [pad; pad]
  | [_; _] => [pad]
  | _ :: _ :: _ :: r => padding_of r
  end.

End Codec.

(** ** The component [App]: state, refs and handlers *)

Module App.
Import Codec.

Local Open Scope string_scope.
Local Open Scope list_scope.

(** *** [types.ts] *)

Inductive Role := user | assistant.

Record Message := { role : Role; text : string; timestamp : Z }.

Inductive ConnectionStatus := disconnected | connecting | connected | error.

Record VoiceOption := { id : string; name : string }.

Definition VOICES : list VoiceOption :=
  [ {| id := "Zephyr"; name := "Zephyr" |};
    {| id := "Puck"; name := "Puck" |};
    {| id := "Charon"; name := "Charon" |};
    {| id := "Kore"; name := "Kore" |};
    {| id := "Fenrir"; name := "Fenrir" |} ].

(** *** Browser and SDK objects the handlers create and mutate *)

Inductive AudioContextState := suspended | running | closed.

Record AudioContext := {
  sampleRate : Z;
  contextState : AudioContextState
}.

(** A microphone stream from [getUserMedia]; [active] while its track
    has not been stopped. *)
Record MediaStream := { active : bool }.

(** An [AudioBufferSourceNode] after [start(when)]. *)
Record SourceNode := {
  startTime : Q;
  nodeDuration : Q;
  stopped : bool
}.

(** A live session from [ai.live.connect]: the voice it was configured
    with, the objects its callbacks close over, the blobs handed to
    [sendRealtimeInput], and whether [close()] has been requested. *)
Record LiveSession := {
  voiceName : string;
  inputCtx : nat;
  outputCtx : nat;
  stream : nat;
  sent : list Blob;
  closeRequested : bool
}.

(** The capture graph built in [onopen]:
    media-stream source -> script processor -> destination. *)
Record CaptureGraph := {
  graphSession : nat;
  graphCtx : nat;
  graphStream : nat;
  graphConnected : bool
}.

(** [transcriptRef.current]: the two in-progress buffers
    ([user] and [assistant] in the source). *)
Record Transcript := { userText : string; assistantText : string }.

Record State := {
  (* React state *)
  status : ConnectionStatus;
  messages : list Message;
  selectedVoice : string;
  isListening : bool;
  isAssistantTalking : bool;
  errorMessage : option string;
  (* refs *)
  audioContextRef : option (nat * nat);
  sessionPromiseRef : option nat;
  nextStartTimeRef : Q;
  sourcesRef : set nat;
  transcriptRef : Transcript;
  (* browser objects, indexed by creation order *)
  audioContexts : list AudioContext;
  mediaStreams : list MediaStream;
  sourceNodes : list SourceNode;
  sessions : list LiveSession;
  captureGraphs : list CaptureGraph
}.

(** One setter per field; every other field is carried over. *)

Definition setStatus (v : ConnectionStatus) (s : State) : State :=
  {| status := v; messages := messages s; selectedVoice := selectedVoice s;
     isListening := isListening s;
     isAssistantTalking := isAssistantTalking s;
     errorMessage := errorMessage s; audioContextRef := audioContextRef s;
     sessionPromiseRef := sessionPromiseRef s;
     nextStartTimeRef := nextStartTimeRef s; sourcesRef := sourcesRef s;
     transcriptRef := transcriptRef s; audioContexts := audioContexts s;
     mediaStreams := mediaStreams s; sourceNodes := sourceNodes s;
     sessions := sessions s; captureGraphs := captureGraphs s |}.

Definition setMessages (v : list Message) (s : State) : State :=
  {| status := status s; messages := v; selectedVoice := selectedVoice s;
     isListening := isListening s;
     isAssistantTalking := isAssistantTalking s;
     errorMessage := errorMessage s; audioContextRef := audioContextRef s;
     sessionPromiseRef := sessionPromiseRef s;
     nextStartTimeRef := nextStartTimeRef s; sourcesRef := sourcesRef s;
     transcriptRef := transcriptRef s; audioContexts := audioContexts s;
     mediaStreams := mediaStreams s; sourceNodes := sourceNodes s;
     sessions := sessions s; captureGraphs := captureGraphs s |}.

Definition setSelectedVoice (v : string) (s : State) : State :=
  {| status := status s; messages := messages s; selectedVoice := v;
     isListening := isListening s;
     isAssistantTalking := isAssistantTalking s;
     errorMessage := errorMessage s; audioContextRef := audioContextRef s;
     sessionPromiseRef := sessionPromiseRef s;
     nextStartTimeRef := nextStartTimeRef s; sourcesRef := sourcesRef s;
     transcriptRef := transcriptRef s; audioContexts := audioContexts s;
     mediaStreams := mediaStreams s; sourceNodes := sourceNodes s;
     sessions := sessions s; captureGraphs := captureGraphs s |}.

Definition setIsListening (v : bool) (s : State) : State :=
  {| status := status s; messages := messages s;
     selectedVoice := selectedVoice s; isListening := v;
     isAssistantTalking := isAssistantTalking s;
     errorMessage := errorMessage s; audioContextRef := audioContextRef s;
     sessionPromiseRef := sessionPromiseRef s;
     nextStartTimeRef := nextStartTimeRef s; sourcesRef := sourcesRef s;
     transcriptRef := transcriptRef s; audioContexts := audioContexts s;
     mediaStreams := mediaStreams s; sourceNodes := sourceNodes s;
     sessions := sessions s; captureGraphs := captureGraphs s |}.

Definition setIsAssistantTalking (v : bool) (s : State) : State :=
  {| status := status s; messages := messages s;
     selectedVoice := selectedVoice s; isListening := isListening s;
     isAssistantTalking := v; errorMessage := errorMessage s;
     audioContextRef := audioContextRef s;
     sessionPromiseRef := sessionPromiseRef s;
     nextStartTimeRef := nextStartTimeRef s; sourcesRef := sourcesRef s;
     transcriptRef := transcriptRef s; audioContexts := audioContexts s;
     mediaStreams := mediaStreams s; sourceNodes := sourceNodes s;
     sessions := sessions s; captureGraphs := captureGraphs s |}.

Definition setErrorMessage (v : option string) (s : State) : State :=
  {| status := status s; messages := messages s;
     selectedVoice := selectedVoice s; isListening := isListening s;
     isAssistantTalking := isAssistantTalking s; errorMessage := v;
     audioContextRef := audioContextRef s;
     sessionPromiseRef := sessionPromiseRef s;
     nextStartTimeRef := nextStartTimeRef s; sourcesRef := sourcesRef s;
     transcriptRef := transcriptRef s; audioContexts := audioContexts s;
     mediaStreams := mediaStreams s; sourceNodes := sourceNodes s;
     sessions := sessions s; captureGraphs := captureGraphs s |}.

Definition setAudioContextRef (v : option (nat * nat)) (s : State) : State :=
  {| status := status s; messages := messages s;
     selectedVoice := selectedVoice s; isListening := isListening s;
     isAssistantTalking := isAssistantTalking s;
     errorMessage := errorMessage s; audioContextRef := v;
     sessionPromiseRef := sessionPromiseRef s;
     nextStartTimeRef := nextStartTimeRef s; sourcesRef := sourcesRef s;
     transcriptRef := transcriptRef s; audioContexts := audioContexts s;
     mediaStreams := mediaStreams s; sourceNodes := sourceNodes s;
     sessions := sessions s; captureGraphs := captureGraphs s |}.

Definition setSessionPromiseRef (v : option nat) (s : State) : State :=
  {| status := status s; messages := messages s;
     selectedVoice := selectedVoice s; isListening := isListening s;
     isAssistantTalking := isAssistantTalking s;
     errorMessage := errorMessage s; audioContextRef := audioContextRef s;
     sessionPromiseRef := v; nextStartTimeRef := nextStartTimeRef s;
     sourcesRef := sourcesRef s; transcriptRef := transcriptRef s;
     audioContexts := audioContexts s; mediaStreams := mediaStreams s;
     sourceNodes := sourceNodes s; sessions := sessions s;
     captureGraphs := captureGraphs s |}.

Definition setNextStartTimeRef (v : Q) (s : State) : State :=
  {| status := status s; messages := messages s;
     selectedVoice := selectedVoice s; isListening := isListening s;
     isAssistantTalking := isAssistantTalking s;
     errorMessage := errorMessage s; audioContextRef := audioContextRef s;
     sessionPromiseRef := sessionPromiseRef s; nextStartTimeRef := v;
     sourcesRef := sourcesRef s; transcriptRef := transcriptRef s;
     audioContexts := audioContexts s; mediaStreams := mediaStreams s;
     sourceNodes := sourceNodes s; sessions := sessions s;
     captureGraphs := captureGraphs s |}.

Definition setSourcesRef (v : set nat) (s : State) : State :=
  {| status := status s; messages := messages s;
     selectedVoice := selectedVoice s; isListening := isListening s;
     isAssistantTalking := isAssistantTalking s;
     errorMessage := errorMessage s; audioContextRef := audioContextRef s;
     sessionPromiseRef := sessionPromiseRef s;
     nextStartTimeRef := nextStartTimeRef s; sourcesRef := v;
     transcriptRef := transcriptRef s; audioContexts := audioContexts s;
     mediaStreams := mediaStreams s; sourceNodes := sourceNodes s;
     sessions := sessions s; captureGraphs := captureGraphs s |}.

Definition setTranscriptRef (v : Transcript) (s : State) : State :=
  {| status := status s; messages := messages s;
     selectedVoice := selectedVoice s; isListening := isListening s;
     isAssistantTalking := isAssistantTalking s;
     errorMessage := errorMessage s; audioContextRef := audioContextRef s;
     sessionPromiseRef := sessionPromiseRef s;
     nextStartTimeRef := nextStartTimeRef s; sourcesRef := sourcesRef s;
     transcriptRef := v; audioContexts := audioContexts s;
     mediaStreams := mediaStreams s; sourceNodes := sourceNodes s;
     sessions := sessions s; captureGraphs := captureGraphs s |}.

Definition setAudioContexts (v : list AudioContext) (s : State) : State :=
  {| status := status s; messages := messages s;
     selectedVoice := selectedVoice s; isListening := isListening s;
     isAssistantTalking := isAssistantTalking s;
     errorMessage := errorMessage s; audioContextRef := audioContextRef s;
     sessionPromiseRef := sessionPromiseRef s;
     nextStartTimeRef := nextStartTimeRef s; sourcesRef := sourcesRef s;
     transcriptRef := transcriptRef s; audioContexts := v;
     mediaStreams := mediaStreams s; sourceNodes := sourceNodes s;
     sessions := sessions s; captureGraphs := captureGraphs s |}.

Definition setMediaStreams (v : list MediaStream) (s : State) : State :=
  {| status := status s; messages := messages s;
     selectedVoice := selectedVoice s; isListening := isListening s;
     isAssistantTalking := isAssistantTalking s;
     errorMessage := errorMessage s; audioContextRef := audioContextRef s;
     sessionPromiseRef := sessionPromiseRef s;
     nextStartTimeRef := nextStartTimeRef s; sourcesRef := sourcesRef s;
     transcriptRef := transcriptRef s; audioContexts := audioContexts s;
     mediaStreams := v; sourceNodes := sourceNodes s;
     sessions := sessions s; captureGraphs := captureGraphs s |}.

Definition setSourceNodes (v : list SourceNode) (s : State) : State :=
  {| status := status s; messages := messages s;
     selectedVoice := selectedVoice s; isListening := isListening s;
     isAssistantTalking := isAssistantTalking s;
     errorMessage := errorMessage s; audioContextRef := audioContextRef s;
     sessionPromiseRef := sessionPromiseRef s;
     nextStartTimeRef := nextStartTimeRef s; sourcesRef := sourcesRef s;
     transcriptRef := transcriptRef s; audioContexts := audioContexts s;
     mediaStreams := mediaStreams s; sourceNodes := v;
     sessions := sessions s; captureGraphs := captureGraphs s |}.

Definition setSessions (v : list LiveSession) (s : State) : State :=
  {| status := status s; messages := messages s;
     selectedVoice := selectedVoice s; isListening := isListening s;
     isAssistantTalking := isAssistantTalking s;
     errorMessage := errorMessage s; audioContextRef := audioContextRef s;
     sessionPromiseRef := sessionPromiseRef s;
     nextStartTimeRef := nextStartTimeRef s; sourcesRef := sourcesRef s;
     transcriptRef := transcriptRef s; audioContexts := audioContexts s;
     mediaStreams := mediaStreams s; sourceNodes := sourceNodes s;
     sessions := v; captureGraphs := captureGraphs s |}.

Definition setCaptureGraphs (v : list CaptureGraph) (s : State) : State :=
  {| status := status s; messages := messages s;
     selectedVoice := selectedVoice s; isListening := isListening s;
     isAssistantTalking := isAssistantTalking s;
     errorMessage := errorMessage s; audioContextRef := audioContextRef s;
     sessionPromiseRef := sessionPromiseRef s;
     nextStartTimeRef := nextStartTimeRef s; sourcesRef := sourcesRef s;
     transcriptRef := transcriptRef s; audioContexts := audioContexts s;
     mediaStreams := mediaStreams s; sourceNodes := sourceNodes s;
     sessions := sessions s; captureGraphs := v |}.

(** [VOICES[0].id]. *)
Definition defaultVoice : string :=
  match VOICES with
  | v :: _ => id v
  | [] => ""
  end.

(** The state of the component when it is mounted. *)
Definition initial : State :=
  {| status := disconnected; messages := []; selectedVoice := defaultVoice;
     isListening := false; isAssistantTalking := false;
     errorMessage := None; audioContextRef := None;
     sessionPromiseRef := None; nextStartTimeRef := 0;
     sourcesRef := empty_set nat;
     transcriptRef := {| userText := ""; assistantText := "" |};
     audioContexts := []; mediaStreams := []; sourceNodes := [];
     sessions := []; captureGraphs := [] |}.

(** *** Small JavaScript helpers *)

(** Truthiness of a string: non-empty. *)
Definition truthy (s : string) : bool := negb (String.eqb s "").

(** [a[i] = f(a[i])] on a store; out of range nothing is touched. *)
Fixpoint update_nth {A : Type} (i : nat) (f : A -> A) (l : list A)
    : list A :=
  match l, i with
  | [], _ => []
  | x :: r, O => f x :: r
  | x :: r, S j => x :: update_nth j f r
  end.

Arguments update_nth {A} i f l : simpl nomatch.

(** [haystack.includes(needle)]. *)
Fixpoint includes (haystack needle : string) : bool :=
  if prefix needle haystack then true
  else
    match haystack with
    | EmptyString => false
    | String _ rest => includes rest needle
    end.

(** A handler either returns or throws; the mutations made before a
    throw are kept. *)
Inductive Completion := Returned (s : State) | Threw (s : State).

Definition state_of (c : Completion) : State :=
  match c with Returned s => s | Threw s => s end.

(** An awaited platform call. *)
Record JsError := { message : string }.

Inductive Outcome := Resolves | Rejects (err : JsError).

(** *** [ensureAudioContext] *)

(** What the platform answers during one [connect()]. *)
Record ConnectEnv := {
  keySelection : Outcome;      (* handleKeySelection() *)
  resumeInput : Outcome;       (* input.resume() *)
  resumeOutput : Outcome;      (* output.resume() *)
  getUserMedia : Outcome;      (* navigator.mediaDevices.getUserMedia *)
  clientInit : Outcome         (* new GoogleGenAI / ai.live.connect *)
}.

Definition resume (c : AudioContext) : AudioContext :=
  {| sampleRate := sampleRate c; contextState := running |}.

(** [inl] carries the rejection of a [resume()], [inr] the cached pair
    (indices of the input and the output context). *)
Definition ensureAudioContext (env : ConnectEnv) (s : State)
    : State * (JsError + nat * nat) :=
  let '(s, (i, o)) :=
    match audioContextRef s with
    | Some current => (s, current)
    | None =>
        let i := List.length (audioContexts s) in
        let s :=
          setAudioContexts
            (audioContexts s
               ++ [ {| sampleRate := 16000; contextState := suspended |};
                    {| sampleRate := 24000; contextState := suspended |} ])
            s in
        (setAudioContextRef (Some (i, S i)) s, (i, S i))
    end in
  match resumeInput env with
  | Rejects e => (s, inl e)
  | Resolves =>
      let s := setAudioContexts (update_nth i resume (audioContexts s)) s in
      match resumeOutput env with
      | Rejects e => (s, inl e)
      | Resolves =>
          (setAudioContexts (update_nth o resume (audioContexts s)) s,
           inr (i, o))
      end
  end.

(** *** [connect] *)

(** The [catch] block of [connect]. *)
Definition connect_catch (err : JsError) (s : State) : State :=
  let s := setStatus error s in
  setErrorMessage
    (Some (if truthy (message err) then message err
           else "Initialization failed. Ensure mic permissions are granted."))
    s.

(** One [connect()] with the answers [env] of its awaited calls, taken as
    one step of the event loop. *)
Definition connect (env : ConnectEnv) (s : State) : State :=
  let s := setStatus connecting s in
  let s := setErrorMessage None s in
  match keySelection env with
  | Rejects e => connect_catch e s
  | Resolves =>
      match ensureAudioContext env s with
      | (s, inl e) => connect_catch e s
      | (s, inr (i, o)) =>
          match getUserMedia env with
          | Rejects e => connect_catch e s
          | Resolves =>
              let st := List.length (mediaStreams s) in
              let s :=
                setMediaStreams (mediaStreams s ++ [ {| active := true |} ])
                                s in
              match clientInit env with
              | Rejects e => connect_catch e s
              | Resolves =>
                  let sid := List.length (sessions s) in
                  let s :=
                    setSessions
                      (sessions s
                         ++ [ {| voiceName := selectedVoice s;
                                 inputCtx := i; outputCtx := o;
                                 stream := st; sent := [];
                                 closeRequested := false |} ])
                      s in
                  setSessionPromiseRef (Some sid) s
              end
          end
      end
  end.

(** *** Channel callbacks *)

(** [onopen] of the session [sid]. *)
Definition onopen (sid : nat) (s : State) : State :=
  let s := setStatus connected s in
  let s := setIsListening true s in
  match nth_error (sessions s) sid with
  | None => s
  | Some sess =>
      setCaptureGraphs
        (captureGraphs s
           ++ [ {| graphSession := sid; graphCtx := inputCtx sess;
                   graphStream := stream sess; graphConnected := true |} ])
        s
  end.

(** [scriptProcessor.onaudioprocess] of the capture graph [g]: the block
    is encoded and handed to the session of the closure. *)
Definition onaudioprocess (g : nat) (inputData : list Q) (s : State)
    : State :=
  match nth_error (captureGraphs s) g with
  | None => s
  | Some graph =>
      let pcmBlob := createBlob inputData in
      setSessions
        (update_nth (graphSession graph)
           (fun sess =>
              {| voiceName := voiceName sess; inputCtx := inputCtx sess;
                 outputCtx := outputCtx sess; stream := stream sess;
                 sent := sent sess ++ [pcmBlob];
                 closeRequested := closeRequested sess |})
           (sessions s))
        s
  end.

Definition onerror (e : JsError) (s : State) : State :=
  let s := setStatus error s in
  let errorText := message e in
  if includes errorText "Requested entity was not found" then
    setErrorMessage
      (Some "API Key or Project mismatch. Please re-select your key.") s
  else
    setErrorMessage
      (Some "Network error: Connection to Aura lost. Check your API key and connection.")
      s.

Definition onclose (s : State) : State :=
  let s := setStatus disconnected s in
  let s := setIsListening false s in
  setIsAssistantTalking false s.

(** *** [disconnect] *)

(** [session.close()] runs later, in the [then] of the session promise;
    the request is recorded on the session. *)
Definition request_close (sess : LiveSession) : LiveSession :=
  {| voiceName := voiceName sess; inputCtx := inputCtx sess;
     outputCtx := outputCtx sess; stream := stream sess;
     sent := sent sess; closeRequested := true |}.

Definition disconnect (s : State) : State :=
  let s :=
    match sessionPromiseRef s with
    | None => s
    | Some sid => setSessions (update_nth sid request_close (sessions s)) s
    end in
  let s := setStatus disconnected s in
  let s := setIsListening false s in
  setIsAssistantTalking false s.

(** *** [onmessage] *)

Record Transcription := { transcriptionText : option string }.

Record InlineData := { inlineBytes : option string }.

Record Part := { inlineData : option InlineData }.

Record Content := { parts : option (list Part) }.

Record ServerContent := {
  inputTranscription : option Transcription;
  outputTranscription : option Transcription;
  turnComplete : bool;
  modelTurn : option Content;
  interrupted : bool
}.

Record LiveServerMessage := { serverContent : option ServerContent }.

(** What the clocks read while one message is handled. *)
Record Clock := {
  currentTime : Q;     (* outputCtx.currentTime *)
  nowUser : Z;         (* Date.now() of the user record *)
  nowAssistant : Z     (* Date.now() of the assistant record *)
}.

(** [acc += t.text]; an absent [text] is appended as "undefined". *)
Definition append_text (acc : string) (t : Transcription) : string :=
  match transcriptionText t with
  | Some d => (acc ++ d)%string
  | None => (acc ++ "undefined")%string
  end.

(** [message.serverContent?.modelTurn?.parts[0]?.inlineData?.data]:
    [None] is the [TypeError] of indexing an absent [parts]. *)
Definition audioData_of (m : LiveServerMessage) : option (option string) :=
  match serverContent m with
  | None => Some None
  | Some sc =>
      match modelTurn sc with
      | None => Some None
      | Some c =>
          match parts c with
          | None => None
          | Some [] => Some None
          | Some (p :: _) =>
              match inlineData p with
              | None => Some None
              | Some d => Some (inlineBytes d)
              end
          end
      end
  end.

Definition transcription_step (m : LiveServerMessage) (s : State) : State :=
  match serverContent m with
  | None => s
  | Some sc =>
      let s :=
        match inputTranscription sc with
        | None => s
        | Some t =>
            setTranscriptRef
              {| userText := append_text (userText (transcriptRef s)) t;
                 assistantText := assistantText (transcriptRef s) |} s
        end in
      match outputTranscription sc with
      | None => s
      | Some t =>
          setTranscriptRef
            {| userText := userText (transcriptRef s);
               assistantText :=
                 append_text (assistantText (transcriptRef s)) t |} s
      end
  end.

(** The records pushed on [turnComplete]. *)
Definition newMessages (clk : Clock) (t : Transcript) : list Message :=
  (if truthy (userText t)
   then [ {| role := user; text := userText t; timestamp := nowUser clk |} ]
   else [])
  ++
  (if truthy (assistantText t)
   then [ {| role := assistant; text := assistantText t;
             timestamp := nowAssistant clk + 1 |} ]
   else []).

Definition turnComplete_step (m : LiveServerMessage) (clk : Clock)
    (s : State) : State :=
  match serverContent m with
  | None => s
  | Some sc =>
      if turnComplete sc then
        let t := transcriptRef s in
        if truthy (userText t) || truthy (assistantText t) then
          let s := setMessages (messages s ++ newMessages clk t) s in
          setTranscriptRef {| userText := ""; assistantText := "" |} s
        else s
      else s
  end.

(** The audio branch: [Threw] when [decode] or [decodeAudioData] raise. *)
Definition audio_step (audioData : string) (clk : Clock) (s : State)
    : Completion :=
  let s := setIsAssistantTalking true s in
  let s :=
    setNextStartTimeRef (Qmax (nextStartTimeRef s) (currentTime clk)) s in
  match decode audioData with
  | None => Threw s
  | Some bytes =>
      match decodeAudioData bytes 24000 1 with
      | None => Threw s
      | Some buffer =>
          let sourceNode := List.length (sourceNodes s) in
          let s :=
            setSourceNodes
              (sourceNodes s
                 ++ [ {| startTime := nextStartTimeRef s;
                         nodeDuration := duration buffer;
                         stopped := false |} ])
              s in
          let s :=
            setNextStartTimeRef (nextStartTimeRef s + duration buffer)%Q s in
          Returned
            (setSourcesRef (set_add Nat.eq_dec sourceNode (sourcesRef s)) s)
      end
  end.

Definition stop (n : SourceNode) : SourceNode :=
  {| startTime := startTime n; nodeDuration := nodeDuration n;
     stopped := true |}.

(** The interruption branch. *)
Definition interrupted_step (m : LiveServerMessage) (s : State) : State :=
  match serverContent m with
  | None => s
  | Some sc =>
      if interrupted sc then
        let s :=
          setSourceNodes
            (fold_left (fun nodes n => update_nth n stop nodes)
                       (sourcesRef s) (sourceNodes s))
            s in
        let s := setSourcesRef (empty_set nat) s in
        let s := setNextStartTimeRef 0 s in
        setIsAssistantTalking false s
      else s
  end.

(** [if (audioData) { ... }] on the extracted payload. *)
Definition audio_dispatch (m : LiveServerMessage) (clk : Clock)
    (s : State) : Completion :=
  match audioData_of m with
  | None => Threw s
  | Some None => Returned s
  | Some (Some audioData) =>
      if truthy audioData then audio_step audioData clk s
      else Returned s
  end.

Definition onmessage (m : LiveServerMessage) (clk : Clock) (s : State)
    : Completion :=
  let s := transcription_step m s in
  let s := turnComplete_step m clk s in
  match audio_dispatch m clk s with
  | Threw s => Threw s
  | Returned s => Returned (interrupted_step m s)
  end.

(** The ['ended'] listener of the source node [n]. *)
Definition onended (n : nat) (s : State) : State :=
  let s := setSourcesRef (set_remove Nat.eq_dec n (sourcesRef s)) s in
  if (List.length (sourcesRef s) =? 0)%nat
  then setIsAssistantTalking false s
  else s.

(** *** The control the UI renders *)

Inductive Control := TerminateLink | InitializeAura (disabled : bool).

Definition render_control (st : ConnectionStatus) : Control :=
  match st with
  | connected => TerminateLink
  | connecting => InitializeAura true
  | _ => InitializeAura false
  end.

(** A click on the rendered control. *)
Definition click (env : ConnectEnv) (s : State) : State :=
  match render_control (status s) with
  | TerminateLink => disconnect s
  | InitializeAura true => s
  | InitializeAura false => connect env s
  end.

(** *** The event loop *)

Inductive Event :=
| Connect (env : ConnectEnv)
| Disconnect
| Click (env : ConnectEnv)
| Open (sid : nat)
| AudioProcess (g : nat) (inputData : list Q)
| Incoming (m : LiveServerMessage) (clk : Clock)
| ChannelError (e : JsError)
| Close
| Ended (n : nat)
| SelectVoice (v : string)
| ClearLogs.

Definition step (s : State) (e : Event) : State :=
  match e with
  | Connect env => connect env s
  | Disconnect => disconnect s
  | Click env => click env s
  | Open sid => onopen sid s
  | AudioProcess g d => onaudioprocess g d s
  | Incoming m clk => state_of (onmessage m clk s)
  | ChannelError e => onerror e s
  | Close => onclose s
  | Ended n => onended n s
  | SelectVoice v => setSelectedVoice v s
  | ClearLogs => setMessages [] s
  end.

Definition run (s : State) (evs : list Event) : State :=
  fold_left step evs s.

(** *** The inbound message kinds of the channel *)

Definition userFragment (delta : string) : LiveServerMessage :=
  {| serverContent :=
       Some {| inputTranscription :=
                 Some {| transcriptionText := Some delta |};
               outputTranscription := None; turnComplete := false;
               modelTurn := None; interrupted := false |} |}.

Definition assistantFragment (delta : string) : LiveServerMessage :=
  {| serverContent :=
       Some {| inputTranscription := None;
               outputTranscription :=
                 Some {| transcriptionText := Some delta |};
               turnComplete := false; modelTurn := None;
               interrupted := false |} |}.

Definition turnCompleteSignal : LiveServerMessage :=
  {| serverContent :=
       Some {| inputTranscription := None; outputTranscription := None;
               turnComplete := true; modelTurn := None;
               interrupted := false |} |}.

Definition audioFragment (base64 : string) : LiveServerMessage :=
  {| serverContent :=
       Some {| inputTranscription := None; outputTranscription := None;
               turnComplete := false;
               modelTurn :=
                 Some {| parts :=
                           Some [ {| inlineData :=
                                       Some {| inlineBytes :=
                                                 Some base64 |} |} ] |};
               interrupted := false |} |}.

Definition interruptionSignal : LiveServerMessage :=
  {| serverContent :=
       Some {| inputTranscription := None; outputTranscription := None;
               turnComplete := false; modelTurn := None;
               interrupted := true |} |}.

(** *** Observations used in the statements *)

(** The message carries the interruption flag. *)
Definition is_interruption (m : LiveServerMessage) : bool :=
  match serverContent m with
  | None => false
  | Some sc => interrupted sc
  end.

(** The buffer an inbound payload decodes to, when [decode] and
    [decodeAudioData] accept it. *)
Definition decodes (base64 : string) : option AudioBuffer :=
  match decode base64 with
  | None => None
  | Some bytes => decodeAudioData bytes 24000 1
  end.

(** The audio part of the message is absent, empty, or a payload that
    decodes. *)
Definition audio_ok (m : LiveServerMessage) : bool :=
  match audioData_of m with
  | None => false
  | Some None => true
  | Some (Some a) =>
      negb (truthy a)
      || match decodes a with Some _ => true | None => false end
  end.

(** No message of the trace carries the interruption flag. *)
Definition interruption_free (evs : list Event) : bool :=
  forallb (fun e =>
             match e with
             | Incoming m _ => negb (is_interruption m)
             | _ => true
             end) evs.

(** [isActive()] of the playback scheduler: the active set is not
    empty. *)
Definition isActive (s : State) : bool :=
  negb (List.length (sourcesRef s) =? 0)%nat.

(** No capture graph is connected and no microphone stream is live. *)
Definition capture_stopped (s : State) : bool :=
  forallb (fun g => negb (graphConnected g)) (captureGraphs s)
  && forallb (fun m => negb (active m)) (mediaStreams s).

Definition is_closed (c : AudioContext) : bool :=
  match contextState c with closed => true | _ => false end.

(** Every audio context is closed, every stream stopped and every
    session asked to close. *)
Definition resources_released (s : State) : bool :=
  forallb is_closed (audioContexts s)
  && forallb (fun m => negb (active m)) (mediaStreams s)
  && forallb closeRequested (sessions s).

(** Consecutive buffers in scheduling order: the next one starts no
    earlier than the previous one starts, and no earlier than it ends. *)
Fixpoint no_overlap (l : list SourceNode) : Prop :=
  match l with
  | n1 :: r =>
      match r with
      | n2 :: _ =>
          (startTime n1 <= startTime n2
           /\ startTime n1 + nodeDuration n1 <= startTime n2)%Q
      | [] => True
      end /\ no_overlap r
  | [] => True
  end.

(** *** Invariants and frames *)

(** The cached pair and its store: absent and empty, or the 16 kHz input
    context at index 0 and the 24 kHz output context at index 1, neither
    closed. *)
Definition contexts_cached (s : State) : Prop :=
  (audioContextRef s = None /\ audioContexts s = [])
  \/ (audioContextRef s = Some (0, 1)%nat
      /\ map sampleRate (audioContexts s) = [16000; 24000]
      /\ existsb is_closed (audioContexts s) = false).

(** Every session closes over the cached pair. *)
Definition sessions_share_contexts (s : State) : Prop :=
  Forall (fun sess => inputCtx sess = 0%nat /\ outputCtx sess = 1%nat)
         (sessions s).

(** What a handler that is not [connect] leaves alone. *)
Definition lifecycle_view (s : State) :=
  (audioContextRef s, audioContexts s, mediaStreams s, captureGraphs s).

Definition same_lifecycle (s s' : State) : Prop :=
  lifecycle_view s' = lifecycle_view s
  /\ sessions s' = sessions s
  /\ status s' = status s.

(** What the scheduler owns. *)
Definition scheduler_view (s : State) :=
  (nextStartTimeRef s, sourcesRef s, sourceNodes s).

(** The nodes [new] were scheduled between [s] and [s']: none starts
    before the cursor of [s], none ends after the cursor of [s'], and
    they do not overlap. *)
Definition scheduled_between (s s' : State) (new : list SourceNode)
    : Prop :=
  sourceNodes s' = sourceNodes s ++ new
  /\ (nextStartTimeRef s <= nextStartTimeRef s')%Q
  /\ Forall (fun n => nextStartTimeRef s <= startTime n
                      /\ 0 <= nodeDuration n
                      /\ startTime n + nodeDuration n
                         <= nextStartTimeRef s')%Q new
  /\ no_overlap new.

End App.

(** ** Concrete environments, states and traces *)

Module Samples.
Import Codec App.

Local Open Scope string_scope.
Local Open Scope list_scope.

Definition allResolve : ConnectEnv :=
  {| keySelection := Resolves; resumeInput := Resolves;
     resumeOutput := Resolves; getUserMedia := Resolves;
     clientInit := Resolves |}.

Definition micDenied : ConnectEnv :=
  {| keySelection := Resolves; resumeInput := Resolves;
     resumeOutput := Resolves;
     getUserMedia := Rejects {| message := "Permission denied" |};
     clientInit := Resolves |}.

Definition clockAt (t : Q) (ms : Z) : Clock :=
  {| currentTime := t; nowUser := ms; nowAssistant := ms |}.

(** A session that was connected and opened. *)
Definition connectedState : State :=
  run initial [Connect allResolve; Open 0%nat].

(** Three samples, [-1], [1/2] and [0], as a 24 kHz payload. *)
Definition threeSamples : string := data (createBlob [-1; 1 # 2; 0]%Q).

(** A burst of three buffers arriving at output times 5, 5 and 9. *)
Definition burst : list Event :=
  [ Incoming (audioFragment threeSamples) (clockAt 5 1000);
    Incoming (audioFragment threeSamples) (clockAt 5 1001);
    Incoming (audioFragment threeSamples) (clockAt 9 1002) ].

Definition talkingState : State := run connectedState burst.

(** The buffer [threeSamples] decodes to. *)
Definition threeSamplesBuffer : AudioBuffer :=
  {| numberOfChannels := 1; frames := 3; bufferRate := 24000;
     channelData := [ [ -32768 # 32768; 16384 # 32768; 0 # 32768 ]%Q ] |}.

Definition keyRejected : ConnectEnv :=
  {| keySelection := Rejects {| message := "" |}; resumeInput := Resolves;
     resumeOutput := Resolves; getUserMedia := Resolves;
     clientInit := Resolves |}.

Definition clientFails : ConnectEnv :=
  {| keySelection := Resolves; resumeInput := Resolves;
     resumeOutput := Resolves; getUserMedia := Resolves;
     clientInit := Rejects {| message := "An API Key must be set" |} |}.

(** Two stereo frames, from the bytes [00 80 FF 7F 01 00 FF FF]. *)
Definition stereoBuffer : AudioBuffer :=
  {| numberOfChannels := 2; frames := 2; bufferRate := 24000;
     channelData := [ [ -32768 / 32768; 1 / 32768 ]%Q;
                      [ 32767 / 32768; -1 / 32768 ]%Q ] |}.

End Samples.

(** ** Derived notions used in the statements about whole traces *)

Module Traces.
Import Codec App.

Local Open Scope string_scope.
Local Open Scope list_scope.

(** What one sample comes back as: stored as a 16-bit value, read back
    divided by 32768. *)
Definition quantize (s : Q) : Q :=
  (inject_Z (ToInt16 (s * 32768)) / 32768)%Q.

(** A character [btoa] may write. *)
Definition transport_safe (c : ascii) : bool :=
  match b64val c with
  | Some _ => true
  | None => is_pad c
  end.

(** A transcription fragment of either role. *)
Definition fragment (r : Role) (delta : string) : LiveServerMessage :=
  match r with
  | user => userFragment delta
  | assistant => assistantFragment delta
  end.

Definition fragment_events (l : list (Role * string * Clock))
    : list Event :=
  map (fun x => Incoming (fragment (fst (fst x)) (snd (fst x))) (snd x)) l.

Definition same_role (r r' : Role) : bool :=
  match r, r' with
  | user, user | assistant, assistant => true
  | _, _ => false
  end.

(** The deltas of one role, in arrival order, joined. *)
Fixpoint spoken (r : Role) (l : list (Role * string * Clock)) : string :=
  match l with
  | [] => ""
  | x :: rest =>
      if same_role r (fst (fst x))
      then (snd (fst x) ++ spoken r rest)%string
      else spoken r rest
  end.

(** Audio fragments arriving one after the other. *)
Definition audio_events (l : list (string * Clock)) : list Event :=
  map (fun x => Incoming (audioFragment (fst x)) (snd x)) l.

(** Every payload decodes and arrives no later than the moment the buffers
    before it have finished playing. *)
Fixpoint timely (cursor : Q) (l : list (string * Clock)) : Prop :=
  match l with
  | [] => True
  | x :: rest =>
      match decodes (fst x) with
      | None => False
      | Some buffer =>
          (currentTime (snd x) <= cursor)%Q
          /\ timely (cursor + duration buffer)%Q rest
      end
  end.

Fixpoint total_duration (l : list (string * Clock)) : Q :=
  match l with
  | [] => 0
  | x :: rest =>
      (match decodes (fst x) with
       | Some buffer => duration buffer
       | None => 0
       end + total_duration rest)%Q
  end.

(** Each buffer starts exactly where its predecessor ends. *)
Fixpoint contiguous (l : list SourceNode) : Prop :=
  match l with
  | n1 :: r =>
      match r with
      | n2 :: _ => (startTime n2 == startTime n1 + nodeDuration n1)%Q
      | [] => True
      end /\ contiguous r
  | [] => True
  end.

(** The active set holds distinct nodes that exist and have not been
    stopped. *)
Definition tracked_live (s : State) : Prop :=
  NoDup (sourcesRef s)
  /\ Forall (fun n => exists node,
                 nth_error (sourceNodes s) n = Some node
                 /\ stopped node = false)
            (sourcesRef s).

(** The needle occurs somewhere in the haystack. *)
Definition contains (haystack needle : string) : Prop :=
  exists pre post, haystack = (pre ++ needle ++ post)%string.

(** The event runs [connect()] or the channel's error callback. *)
Definition may_replace_error (s : State) (e : Event) : bool :=
  match e with
  | Connect _ | ChannelError _ => true
  | Click _ =>
      match render_control (status s) with
      | InitializeAura false => true
      | _ => false
      end
  | _ => false
  end.

(** What the user sees of the session: state, error slot, listening
    flag; and the two refs a message handler must not touch. *)
Definition session_view (s : State) :=
  (status s, errorMessage s, isListening s, sessionPromiseRef s,
   selectedVoice s).

Definition clears_log (e : Event) : bool :=
  match e with
  | ClearLogs => true
  | _ => false
  end.

(** The records one finalized turn may consist of: at most one per role,
    the user's first, none with an empty text. *)
Definition finalized_turn (new : list Message) : Prop :=
  (List.length new <= 2)%nat
  /\ Forall (fun m => truthy (text m) = true) new
  /\ (map role new = [] \/ map role new = [user]
      \/ map role new = [assistant] \/ map role new = [user; assistant]).

End Traces.

(** * Verification *)

Import Codec App Traces.

Local Open Scope string_scope.
Local Open Scope list_scope.

(** ** Transcript accumulation *)

Section TranscriptAccumulator.

(** The buffers after the three interleaved fragments. *)
Lemma interleaved_fragments_buffers (s : State) (c1 c2 c3 : Clock) :
  transcriptRef s = {| userText := ""; assistantText := "" |} ->
  transcriptRef
    (run s [Incoming (userFragment "a") c1;
            Incoming (assistantFragment "b") c2;
            Incoming (userFragment "c") c3])
  = {| userText := "ac"; assistantText := "b" |}.
Proof.
  destruct s; simpl; intros ->; reflexivity.
Qed.

(** C9: from empty buffers, the fragments "a" (user), "b" (assistant),
    "c" (user) followed by a turn-complete message append exactly two
    records, user "ac" then assistant "b", the assistant timestamp being
    strictly greater than the user timestamp (the wall clock not running
    backwards between the two reads); both buffers are cleared, and a
    second turn-complete message emits nothing and appends nothing. *)
Theorem interleaved_turn_finalized
    (s : State) (c1 c2 c3 c4 c5 : Clock) :
  transcriptRef s = {| userText := ""; assistantText := "" |} ->
  nowUser c4 <= nowAssistant c4 ->
  let s3 := run s [Incoming (userFragment "a") c1;
                   Incoming (assistantFragment "b") c2;
                   Incoming (userFragment "c") c3] in
  let s4 := run s3 [Incoming turnCompleteSignal c4] in
  let s5 := run s4 [Incoming turnCompleteSignal c5] in
  newMessages c4 (transcriptRef s3)
  = [ {| role := user; text := "ac"; timestamp := nowUser c4 |};
      {| role := assistant; text := "b";
         timestamp := nowAssistant c4 + 1 |} ]
  /\ messages s4 = messages s ++ newMessages c4 (transcriptRef s3)
  /\ nowUser c4 < nowAssistant c4 + 1
  /\ transcriptRef s4 = {| userText := ""; assistantText := "" |}
  /\ newMessages c5 (transcriptRef s4) = []
  /\ messages s5 = messages s4.
Proof.
  intros Hempty Hclock s3 s4 s5.
  assert (H3 : transcriptRef s3 = {| userText := "ac"; assistantText := "b" |})
    by (apply interleaved_fragments_buffers; exact Hempty).
  subst s5 s4 s3.
  destruct s; simpl in Hempty; subst.
  repeat split; try reflexivity.
  lia.
Qed.

Lemma interleaved_turn_finalized_witness :
  let c := Samples.clockAt 0 1000 in
  let s4 := run initial [Incoming (userFragment "a") c;
                         Incoming (assistantFragment "b") c;
                         Incoming (userFragment "c") c;
                         Incoming turnCompleteSignal c] in
  messages s4
  = [ {| role := user; text := "ac"; timestamp := 1000 |};
      {| role := assistant; text := "b"; timestamp := 1001 |} ]
  /\ messages (run s4 [Incoming turnCompleteSignal c]) = messages s4.
Proof.
  pose proof
    (interleaved_turn_finalized initial
       (Samples.clockAt 0 1000) (Samples.clockAt 0 1000)
       (Samples.clockAt 0 1000) (Samples.clockAt 0 1000)
       (Samples.clockAt 0 1000) eq_refl) as H.
  simpl in H.
  destruct H as (_ & H4 & _ & _ & _ & H5); [lia |].
  split; [exact H4 | exact H5].
Defined.

End TranscriptAccumulator.

(** ** Session lifecycle: close and disconnect *)

Section Lifecycle.

(** The sample state is connected, with a live microphone stream and a
    connected capture graph. *)
Lemma connectedState_shape :
  status Samples.connectedState = connected
  /\ isListening Samples.connectedState = true
  /\ mediaStreams Samples.connectedState = [ {| active := true |} ]
  /\ captureGraphs Samples.connectedState
     = [ {| graphSession := 0; graphCtx := 0; graphStream := 0;
            graphConnected := true |} ].
Proof. repeat split. Qed.

(** C7, as stated, fails: after the close event of a connected session
    the capture graph is still connected and the microphone stream still
    live. *)
Lemma close_leaves_capture_running :
  status Samples.connectedState = connected
  /\ capture_stopped (onclose Samples.connectedState) = false.
Proof. split; reflexivity. Qed.

(** C7, amended: a close event sets the state to Disconnected and clears
    the listening and talking flags; the playback scheduler (active set,
    cursor, scheduled nodes) is left as it was, and so are the capture
    graphs and microphone streams, which are not stopped. *)
Theorem onclose_effect (s : State) :
  let s' := onclose s in
  status s' = disconnected
  /\ isListening s' = false
  /\ isAssistantTalking s' = false
  /\ sourcesRef s' = sourcesRef s
  /\ nextStartTimeRef s' = nextStartTimeRef s
  /\ sourceNodes s' = sourceNodes s
  /\ captureGraphs s' = captureGraphs s
  /\ mediaStreams s' = mediaStreams s
  /\ capture_stopped s' = capture_stopped s.
Proof. repeat split. Qed.

(** C8, as stated, fails: right after [disconnect()] returns on a
    connected session, before any close event, the state is already
    Disconnected. *)
Lemma disconnect_is_synchronous :
  status Samples.connectedState = connected
  /\ status (disconnect Samples.connectedState) = disconnected.
Proof. split; reflexivity. Qed.

(** C8, amended: [disconnect()] itself sets the state to Disconnected and
    clears the listening and talking flags before it returns; closing the
    channel is only requested (recorded on the session of the current
    session promise), and the close event that follows changes nothing
    more. *)
Theorem disconnect_effect (s : State) :
  let s' := disconnect s in
  status s' = disconnected
  /\ isListening s' = false
  /\ isAssistantTalking s' = false
  /\ sessions s'
     = match sessionPromiseRef s with
       | None => sessions s
       | Some sid => update_nth sid request_close (sessions s)
       end
  /\ onclose s' = s'.
Proof.
  unfold disconnect; destruct (sessionPromiseRef s); repeat split.
Qed.

End Lifecycle.

(** ** The audio contexts *)

Section AudioContexts.

Ltac case_outcomes env :=
  destruct env as [k ri ro g c]; destruct k, ri, ro, g, c.

Lemma update_nth_length {A : Type} (f : A -> A) (l : list A) (i : nat) :
  List.length (update_nth i f l) = List.length l.
Proof.
  revert i; induction l as [| x r IH]; intros [| j]; simpl; auto.
Qed.

Lemma update_nth_Forall {A : Type} (P : A -> Prop) (f : A -> A)
    (l : list A) (i : nat) :
  (forall x, P x -> P (f x)) -> Forall P l -> Forall P (update_nth i f l).
Proof.
  intros Hf; revert i; induction l as [| x r IH]; intros [| j] H;
    simpl; auto; inversion H; subst; constructor; auto.
Qed.

Lemma connect_contexts_cached (env : ConnectEnv) (s : State) :
  contexts_cached s -> contexts_cached (connect env s).
Proof.
  intros [[Href Hctx] | (Href & Hrates & Hex)].
  - destruct s; simpl in *; subst.
    case_outcomes env;
      first [ left; split; reflexivity
            | right; repeat split; reflexivity ].
  - destruct s as [? ? ? ? ? ? ? ? ? ? ? ctxs ? ? ? ?]; simpl in *; subst.
    destruct ctxs as [| [r1 st1] [| [r2 st2] [| ? ?]]]; try discriminate.
    simpl in Hrates, Hex.
    injection Hrates as -> ->.
    case_outcomes env; right; simpl;
      destruct st1, st2; try discriminate; repeat split; reflexivity.
Qed.

Lemma connect_sessions_share (env : ConnectEnv) (s : State) :
  contexts_cached s -> sessions_share_contexts s ->
  sessions_share_contexts (connect env s).
Proof.
  unfold sessions_share_contexts.
  intros [[Href Hctx] | (Href & Hrates & Hex)] Hs.
  - destruct s; simpl in *; subst.
    case_outcomes env; simpl; auto;
      apply Forall_app; split; auto.
  - destruct s as [? ? ? ? ? ? ? ? ? ? ? ctxs ? ? ? ?]; simpl in *; subst.
    case_outcomes env; simpl; auto;
      apply Forall_app; split; auto.
Qed.

Ltac break_match :=
  match goal with
  | |- context [match ?x with _ => _ end] => destruct x eqn:?
  end.

Lemma same_lifecycle_refl (s : State) : same_lifecycle s s.
Proof. repeat split. Qed.

Lemma same_lifecycle_trans (s1 s2 s3 : State) :
  same_lifecycle s1 s2 -> same_lifecycle s2 s3 -> same_lifecycle s1 s3.
Proof.
  unfold same_lifecycle; intros (-> & -> & ->) (-> & -> & ->);
    repeat split.
Qed.

Lemma transcription_step_lifecycle (m : LiveServerMessage) (s : State) :
  same_lifecycle s (transcription_step m s).
Proof.
  unfold transcription_step.
  destruct (serverContent m) as [sc |]; [| apply same_lifecycle_refl].
  destruct (inputTranscription sc), (outputTranscription sc);
    repeat split.
Qed.

Lemma turnComplete_step_lifecycle (m : LiveServerMessage) (clk : Clock)
    (s : State) :
  same_lifecycle s (turnComplete_step m clk s).
Proof.
  unfold turnComplete_step.
  destruct (serverContent m) as [sc |]; [| apply same_lifecycle_refl].
  destruct (turnComplete sc); [| apply same_lifecycle_refl].
  destruct (_ || _); repeat split.
Qed.

Lemma audio_step_lifecycle (a : string) (clk : Clock) (s : State) :
  same_lifecycle s (state_of (audio_step a clk s)).
Proof.
  unfold audio_step.
  destruct (decode a) as [bytes |]; [| repeat split].
  destruct (decodeAudioData bytes 24000 1); repeat split.
Qed.

Lemma interrupted_step_lifecycle (m : LiveServerMessage) (s : State) :
  same_lifecycle s (interrupted_step m s).
Proof.
  unfold interrupted_step.
  destruct (serverContent m) as [sc |]; [| apply same_lifecycle_refl].
  destruct (interrupted sc); repeat split.
Qed.

Lemma audio_dispatch_lifecycle (m : LiveServerMessage) (clk : Clock)
    (s : State) :
  same_lifecycle s (state_of (audio_dispatch m clk s)).
Proof.
  unfold audio_dispatch.
  destruct (audioData_of m) as [[a |] |]; try apply same_lifecycle_refl.
  destruct (truthy a); [apply audio_step_lifecycle
                       | apply same_lifecycle_refl].
Qed.

Lemma onmessage_lifecycle (m : LiveServerMessage) (clk : Clock)
    (s : State) :
  same_lifecycle s (state_of (onmessage m clk s)).
Proof.
  unfold onmessage.
  set (s1 := turnComplete_step m clk (transcription_step m s)).
  assert (H1 : same_lifecycle s s1).
  { eapply same_lifecycle_trans;
      [apply transcription_step_lifecycle
      | apply turnComplete_step_lifecycle]. }
  pose proof (audio_dispatch_lifecycle m clk s1) as H2.
  destruct (audio_dispatch m clk s1) as [s2 | s2]; simpl in *.
  - eapply same_lifecycle_trans; [exact H1 |].
    eapply same_lifecycle_trans; [exact H2 |].
    apply interrupted_step_lifecycle.
  - eapply same_lifecycle_trans; [exact H1 | exact H2].
Qed.

Lemma step_keeps_cached_pair (s : State) (e : Event) (p : nat * nat) :
  audioContextRef s = Some p ->
  audioContextRef (step s e) = Some p
  /\ List.length (audioContexts (step s e)) = List.length (audioContexts s).
Proof.
  intros Href.
  assert (Hconnect : forall env,
             audioContextRef (connect env s) = Some p
             /\ List.length (audioContexts (connect env s))
                = List.length (audioContexts s)).
  { intros env. destruct s; simpl in *; subst. destruct p as [i o].
    case_outcomes env; simpl; rewrite ?update_nth_length; split;
      reflexivity. }
  assert (Hdisconnect :
             audioContextRef (disconnect s) = Some p
             /\ List.length (audioContexts (disconnect s))
                = List.length (audioContexts s)).
  { unfold disconnect; destruct (sessionPromiseRef s); simpl; auto. }
  destruct e; cbn [step]; auto.
  - unfold click. destruct (render_control (status s)) as [| []]; auto.
  - unfold onopen; simpl. destruct (nth_error (sessions s) sid); auto.
  - unfold onaudioprocess. destruct (nth_error (captureGraphs s) g); auto.
  - destruct (onmessage_lifecycle m clk s) as (Hv & _ & _).
    unfold lifecycle_view in Hv. injection Hv as -> -> _ _. auto.
  - unfold onerror. destruct (includes _ _); auto.
  - unfold onended; simpl. destruct (_ =? _)%nat; auto.
Qed.

Lemma step_contexts_grow (s : State) (e : Event) :
  (List.length (audioContexts s)
   <= List.length (audioContexts (step s e)))%nat.
Proof.
  destruct (audioContextRef s) as [p |] eqn:Href.
  - destruct (step_keeps_cached_pair s e p Href) as [_ ->]. lia.
  - assert (Hconnect : forall env,
               (List.length (audioContexts s)
                <= List.length (audioContexts (connect env s)))%nat).
    { intros env. destruct s; simpl in *; subst.
      case_outcomes env; simpl;
        rewrite ?update_nth_length, ?length_app; simpl; lia. }
    assert (Hdisconnect :
               audioContexts (disconnect s) = audioContexts s).
    { unfold disconnect; destruct (sessionPromiseRef s); reflexivity. }
    destruct e; cbn [step]; auto.
    + rewrite Hdisconnect; lia.
    + unfold click. destruct (render_control (status s)) as [| []]; auto.
      rewrite Hdisconnect; lia.
    + unfold onopen; simpl. destruct (nth_error (sessions s) sid); simpl; lia.
    + unfold onaudioprocess.
      destruct (nth_error (captureGraphs s) g); simpl; lia.
    + destruct (onmessage_lifecycle m clk s) as (Hv & _ & _).
      unfold lifecycle_view in Hv. injection Hv as _ -> _ _. lia.
    + unfold onerror. destruct (includes _ _); simpl; lia.
    + unfold onended; simpl. destruct (_ =? _)%nat; simpl; lia.
Qed.

Lemma step_contexts_cached (s : State) (e : Event) :
  contexts_cached s -> contexts_cached (step s e).
Proof.
  intros H.
  assert (Hframe : forall s',
             audioContextRef s' = audioContextRef s ->
             audioContexts s' = audioContexts s -> contexts_cached s').
  { unfold contexts_cached; intros s' -> ->; exact H. }
  assert (Hdisconnect : contexts_cached (disconnect s)).
  { apply Hframe; unfold disconnect; destruct (sessionPromiseRef s);
      reflexivity. }
  destruct e; cbn [step]; auto using connect_contexts_cached.
  - unfold click. destruct (render_control (status s)) as [| []];
      auto using connect_contexts_cached.
  - apply Hframe; unfold onopen; simpl;
      destruct (nth_error (sessions s) sid); reflexivity.
  - apply Hframe; unfold onaudioprocess;
      destruct (nth_error (captureGraphs s) g); reflexivity.
  - destruct (onmessage_lifecycle m clk s) as (Hv & _ & _).
    unfold lifecycle_view in Hv. injection Hv as H1 H2 _ _.
    apply Hframe; assumption.
  - apply Hframe; unfold onerror; destruct (includes _ _); reflexivity.
  - apply Hframe; unfold onended; simpl; destruct (_ =? _)%nat;
      reflexivity.
Qed.

Lemma step_sessions_share (s : State) (e : Event) :
  contexts_cached s -> sessions_share_contexts s ->
  sessions_share_contexts (step s e).
Proof.
  intros Hc H.
  assert (Hframe : forall s',
             sessions s' = sessions s -> sessions_share_contexts s').
  { unfold sessions_share_contexts; intros s' ->; exact H. }
  assert (Hdisconnect : sessions_share_contexts (disconnect s)).
  { unfold disconnect, sessions_share_contexts.
    destruct (sessionPromiseRef s); simpl; auto.
    apply update_nth_Forall; auto. }
  destruct e; cbn [step]; auto using connect_sessions_share.
  - unfold click. destruct (render_control (status s)) as [| []];
      auto using connect_sessions_share.
  - apply Hframe; unfold onopen; simpl;
      destruct (nth_error (sessions s) sid); reflexivity.
  - unfold onaudioprocess, sessions_share_contexts.
    destruct (nth_error (captureGraphs s) g); simpl; auto.
    apply update_nth_Forall; auto.
  - destruct (onmessage_lifecycle m clk s) as (_ & Hs & _).
    apply Hframe; assumption.
  - apply Hframe; unfold onerror; destruct (includes _ _); reflexivity.
  - apply Hframe; unfold onended; simpl; destruct (_ =? _)%nat;
      reflexivity.
Qed.

Lemma run_contexts_cached (evs : list Event) (s : State) :
  contexts_cached s -> sessions_share_contexts s ->
  contexts_cached (run s evs) /\ sessions_share_contexts (run s evs).
Proof.
  revert s; induction evs as [| e evs IH]; intros s Hc Hs; simpl.
  - split; assumption.
  - apply IH; [apply step_contexts_cached | apply step_sessions_share];
      assumption.
Qed.

Lemma initial_contexts_cached :
  contexts_cached initial /\ sessions_share_contexts initial.
Proof. split; [left; split; reflexivity | constructor]. Qed.

(** C10: along every run from the initial state the audio contexts are
    absent, or are exactly the 16 kHz input and 24 kHz output context
    made by the first [ensureAudioContext]; none is closed; every session
    uses that pair; and no further event of any kind ([connect()],
    whether it succeeds or fails, [disconnect()], channel close or
    error, messages) replaces the cached pair or shrinks or extends the
    store once the pair exists. *)
Theorem audio_contexts_created_once (evs : list Event) (e : Event) :
  let s := run initial evs in
  contexts_cached s
  /\ sessions_share_contexts s
  /\ (List.length (audioContexts s) <= 2)%nat
  /\ (List.length (audioContexts s)
      <= List.length (audioContexts (step s e)))%nat
  /\ (audioContextRef s = None
      \/ (audioContextRef (step s e) = audioContextRef s
          /\ map sampleRate (audioContexts (step s e))
             = map sampleRate (audioContexts s)
          /\ existsb is_closed (audioContexts (step s e)) = false)).
Proof.
  intros s.
  destruct initial_contexts_cached as [Hc0 Hs0].
  destruct (run_contexts_cached evs initial Hc0 Hs0) as [Hc Hs].
  fold s in Hc, Hs.
  pose proof (step_contexts_cached s e Hc) as Hc'.
  repeat split; try assumption.
  - destruct Hc as [[_ ->] | (_ & Hr & _)]; simpl; [lia |].
    rewrite <- (length_map sampleRate), Hr; simpl; lia.
  - apply step_contexts_grow.
  - destruct (audioContextRef s) as [p |] eqn:Href; [right | left; auto].
    destruct (step_keeps_cached_pair s e p Href) as [Href' _].
    destruct Hc as [[Hn _] | (_ & Hr & _)]; [congruence |].
    destruct Hc' as [[Hn _] | (_ & Hr' & Hx')]; [congruence |].
    repeat split; congruence.
Qed.

End AudioContexts.

(** ** [connect]: guard and failure *)

Section Connect.

(** [connect] ends in Connecting with an empty error slot, or in Error
    with a message. *)
Lemma connect_status (env : ConnectEnv) (s : State) :
  (status (connect env s) = connecting
   /\ errorMessage (connect env s) = None)
  \/ (status (connect env s) = error
      /\ exists msg, errorMessage (connect env s) = Some msg).
Proof.
  destruct s as [? ? ? ? ? ? ref ? ? ? ? ? ? ? ? ?].
  destruct env as [k ri ro g c].
  destruct ref as [[i o] |]; destruct k, ri, ro, g, c; simpl;
    first [ left; split; reflexivity
          | right; split; [reflexivity | eexists; reflexivity] ].
Qed.

(** C6, as stated, fails: [connect()] on a connected session is not
    ignored. It moves the state to Connecting and acquires a second
    microphone stream and a second session. *)
Lemma connect_while_connected_has_effects :
  status Samples.connectedState = connected
  /\ status (connect Samples.allResolve Samples.connectedState)
     = connecting
  /\ List.length
       (mediaStreams (connect Samples.allResolve Samples.connectedState))
     = 2%nat
  /\ List.length
       (sessions (connect Samples.allResolve Samples.connectedState))
     = 2%nat
  /\ connect Samples.allResolve Samples.connectedState
     <> Samples.connectedState.
Proof.
  repeat split; try reflexivity.
  intros H. apply (f_equal status) in H. discriminate H.
Qed.

(** C6, amended: [connect()] has no guard of its own; while the state is
    Connected the rendered control is the disconnect button, so a click
    runs [disconnect()] and never [connect()]. Were [connect()] invoked
    all the same, it would leave the state Connecting with an empty
    error slot, or Error with a message. *)
Theorem connect_guarded_by_control (env : ConnectEnv) (s : State) :
  status s = connected ->
  render_control (status s) = TerminateLink
  /\ click env s = disconnect s
  /\ ((status (connect env s) = connecting
       /\ errorMessage (connect env s) = None)
      \/ (status (connect env s) = error
          /\ exists msg, errorMessage (connect env s) = Some msg)).
Proof.
  intros H. unfold click. rewrite H. simpl.
  repeat split. apply connect_status.
Qed.

Lemma connect_guarded_by_control_witness :
  click Samples.allResolve Samples.connectedState
  = disconnect Samples.connectedState.
Proof.
  exact (proj1 (proj2 (connect_guarded_by_control
                         Samples.allResolve Samples.connectedState
                         eq_refl))).
Defined.

(** C5, as stated, fails: when the microphone is refused on the first
    [connect()], the error is surfaced while both audio contexts made by
    that attempt are still open. *)
Lemma mic_failure_leaves_contexts_open :
  status (connect Samples.micDenied initial) = error
  /\ errorMessage (connect Samples.micDenied initial)
     = Some "Permission denied"
  /\ audioContexts (connect Samples.micDenied initial)
     = [ {| sampleRate := 16000; contextState := running |};
         {| sampleRate := 24000; contextState := running |} ]
  /\ resources_released (connect Samples.micDenied initial) = false.
Proof. repeat split. Qed.

(** C5, amended: when [getUserMedia] rejects during [connect()], the
    error is surfaced (state Error, the rejection's message or the
    default text in the error slot); the attempt has acquired no
    microphone stream, session or capture graph; the two audio contexts
    are not released but stay open and cached, and a further [connect()]
    reuses them. *)
Theorem mic_failure_effect
    (evs : list Event) (env retry : ConnectEnv) (err : JsError) :
  keySelection env = Resolves ->
  resumeInput env = Resolves ->
  resumeOutput env = Resolves ->
  getUserMedia env = Rejects err ->
  let s := run initial evs in
  let s' := connect env s in
  status s' = error
  /\ errorMessage s'
     = Some (if truthy (message err) then message err
             else "Initialization failed. Ensure mic permissions are granted.")
  /\ mediaStreams s' = mediaStreams s
  /\ sessions s' = sessions s
  /\ captureGraphs s' = captureGraphs s
  /\ sessionPromiseRef s' = sessionPromiseRef s
  /\ audioContextRef s' = Some (0, 1)%nat
  /\ audioContexts s'
     = [ {| sampleRate := 16000; contextState := running |};
         {| sampleRate := 24000; contextState := running |} ]
  /\ audioContextRef (connect retry s') = Some (0, 1)%nat
  /\ map sampleRate (audioContexts (connect retry s')) = [16000; 24000]
  /\ existsb is_closed (audioContexts (connect retry s')) = false.
Proof.
  intros Hk Hri Hro Hg s s'.
  destruct initial_contexts_cached as [Hc0 Hs0].
  destruct (run_contexts_cached evs initial Hc0 Hs0) as [Hc _].
  fold s in Hc.
  assert (Hc' : contexts_cached s')
    by (apply connect_contexts_cached; exact Hc).
  assert (Hfirst :
            status s' = error
            /\ errorMessage s'
               = Some (if truthy (message err) then message err
                       else "Initialization failed. Ensure mic permissions are granted.")
            /\ mediaStreams s' = mediaStreams s
            /\ sessions s' = sessions s
            /\ captureGraphs s' = captureGraphs s
            /\ sessionPromiseRef s' = sessionPromiseRef s
            /\ audioContextRef s' = Some (0, 1)%nat
            /\ audioContexts s'
               = [ {| sampleRate := 16000; contextState := running |};
                   {| sampleRate := 24000; contextState := running |} ]).
  { subst s'. generalize dependent s. intros s Hc.
    destruct env as [k ri ro g c]; simpl in Hk, Hri, Hro, Hg; subst.
    destruct Hc as [[Href Hctx] | (Href & Hrates & Hex)].
    - destruct s; simpl in *; subst. repeat split.
    - destruct s as [? ? ? ? ? ? ? ? ? ? ? ctxs ? ? ? ?]; simpl in *; subst.
      destruct ctxs as [| [r1 st1] [| [r2 st2] [| ? ?]]]; try discriminate.
      simpl in Hrates. injection Hrates as -> ->.
      repeat split. }
  pose proof (connect_contexts_cached retry s' Hc') as Hretry.
  destruct Hfirst as (H1 & H2 & H3 & H4 & H5 & H6 & H7 & H8).
  repeat split; try assumption.
  - destruct (step_keeps_cached_pair s' (Connect retry) _ H7) as [Hr _].
    exact Hr.
  - destruct Hretry as [[Hn _] | (_ & Hr & _)]; [| exact Hr].
    destruct (step_keeps_cached_pair s' (Connect retry) _ H7) as [Hr _].
    cbn [step] in Hr. congruence.
  - destruct Hretry as [[Hn _] | (_ & _ & Hx)]; [| exact Hx].
    destruct (step_keeps_cached_pair s' (Connect retry) _ H7) as [Hr _].
    cbn [step] in Hr. congruence.
Qed.

Lemma mic_failure_effect_witness :
  status (connect Samples.micDenied initial) = error
  /\ mediaStreams (connect Samples.micDenied initial) = []
  /\ audioContextRef
       (connect Samples.allResolve (connect Samples.micDenied initial))
     = Some (0, 1)%nat.
Proof.
  pose proof
    (mic_failure_effect [] Samples.micDenied Samples.allResolve
       {| message := "Permission denied" |}
       eq_refl eq_refl eq_refl eq_refl) as H.
  simpl in H.
  destruct H as (H1 & _ & H3 & _ & _ & _ & _ & _ & H9 & _).
  repeat split; assumption.
Defined.

End Connect.

(** ** The playback scheduler *)

Section PlaybackScheduler.

Local Open Scope Q_scope.

Lemma duration_nonneg (b : AudioBuffer) : 0 <= duration b.
Proof. unfold duration, Qle; simpl. lia. Qed.

Lemma transcription_step_scheduler (m : LiveServerMessage) (s : State) :
  scheduler_view (transcription_step m s) = scheduler_view s.
Proof.
  unfold transcription_step.
  destruct (serverContent m) as [sc |]; [| reflexivity].
  destruct (inputTranscription sc), (outputTranscription sc); reflexivity.
Qed.

Lemma turnComplete_step_scheduler (m : LiveServerMessage) (clk : Clock)
    (s : State) :
  scheduler_view (turnComplete_step m clk s) = scheduler_view s.
Proof.
  unfold turnComplete_step.
  destruct (serverContent m) as [sc |]; [| reflexivity].
  destruct (turnComplete sc); [| reflexivity].
  destruct (_ || _)%bool; reflexivity.
Qed.

(** One [schedule]: the buffer starts at [max(cursor, now)], the cursor
    moves to the end of the buffer, and the node joins the active set. *)
Lemma audio_step_schedules (a : string) (clk : Clock) (s : State)
    (buffer : AudioBuffer) :
  decodes a = Some buffer ->
  exists s',
    audio_step a clk s = Returned s'
    /\ sourceNodes s'
       = sourceNodes s
           ++ [ {| startTime := Qmax (nextStartTimeRef s) (currentTime clk);
                   nodeDuration := duration buffer;
                   stopped := false |} ]
    /\ nextStartTimeRef s'
       = Qmax (nextStartTimeRef s) (currentTime clk) + duration buffer
    /\ sourcesRef s'
       = set_add Nat.eq_dec (List.length (sourceNodes s)) (sourcesRef s)
    /\ isAssistantTalking s' = true.
Proof.
  unfold decodes, audio_step. intros H.
  destruct (decode a) as [bytes |]; [| discriminate].
  simpl. rewrite H. eexists; repeat split.
Qed.

(** A buffer that arrives before the previous one has finished playing
    starts exactly where the previous one ends: no gap. *)
Lemma audio_step_back_to_back (a : string) (clk : Clock) (s : State)
    (buffer : AudioBuffer) :
  decodes a = Some buffer ->
  currentTime clk <= nextStartTimeRef s ->
  exists s' node,
    audio_step a clk s = Returned s'
    /\ sourceNodes s' = sourceNodes s ++ [node]
    /\ startTime node == nextStartTimeRef s
    /\ nextStartTimeRef s' == nextStartTimeRef s + duration buffer.
Proof.
  intros Hd Hnow.
  destruct (audio_step_schedules a clk s buffer Hd)
    as (s' & Hs & Hn & Hc & _).
  exists s'; eexists. repeat split; [exact Hs | exact Hn | |]; simpl.
  - apply Q.max_l. exact Hnow.
  - rewrite Hc. rewrite (Q.max_l _ _ Hnow). reflexivity.
Qed.

Lemma audio_step_rejects (a : string) (clk : Clock) (s : State) :
  decodes a = None ->
  exists s',
    audio_step a clk s = Threw s'
    /\ sourceNodes s' = sourceNodes s
    /\ sourcesRef s' = sourcesRef s
    /\ nextStartTimeRef s' = Qmax (nextStartTimeRef s) (currentTime clk).
Proof.
  unfold decodes, audio_step. intros H.
  destruct (decode a) as [bytes |]; simpl.
  - rewrite H. eexists; repeat split.
  - eexists; repeat split.
Qed.

Lemma scheduled_between_same (s s' : State) :
  sourceNodes s' = sourceNodes s ->
  nextStartTimeRef s' = nextStartTimeRef s ->
  scheduled_between s s' [].
Proof.
  intros Hn Hc. unfold scheduled_between.
  rewrite Hn, Hc, app_nil_r. repeat split; auto. apply Qle_refl.
Qed.

Lemma no_overlap_app (l1 l2 : list SourceNode) :
  no_overlap l1 -> no_overlap l2 ->
  (forall n1 n2, In n1 l1 -> In n2 l2 ->
                 startTime n1 <= startTime n2
                 /\ startTime n1 + nodeDuration n1 <= startTime n2) ->
  no_overlap (l1 ++ l2).
Proof.
  induction l1 as [| n1 r IH]; intros H1 H2 Hx; simpl; auto.
  destruct H1 as [Hhead Htail].
  split.
  - destruct r as [| n2 r']; simpl.
    + destruct l2 as [| n2 r2]; auto.
      apply Hx; simpl; auto.
    + exact Hhead.
  - apply IH; auto. intros; apply Hx; simpl; auto.
Qed.

Lemma scheduled_between_trans (s1 s2 s3 : State)
    (new1 new2 : list SourceNode) :
  scheduled_between s1 s2 new1 -> scheduled_between s2 s3 new2 ->
  scheduled_between s1 s3 (new1 ++ new2).
Proof.
  intros (Hn1 & Hc1 & Hb1 & Ho1) (Hn2 & Hc2 & Hb2 & Ho2).
  unfold scheduled_between.
  rewrite Forall_forall in Hb1, Hb2.
  repeat split.
  - rewrite Hn2, Hn1, app_assoc. reflexivity.
  - eapply Qle_trans; eassumption.
  - apply Forall_app; split; apply Forall_forall; intros n Hin.
    + destruct (Hb1 n Hin) as (Ha & Hb & Hc). repeat split; auto.
      eapply Qle_trans; eassumption.
    + destruct (Hb2 n Hin) as (Ha & Hb & Hc). repeat split; auto.
      eapply Qle_trans; eassumption.
  - apply no_overlap_app; auto.
    intros n1 n2 Hin1 Hin2.
    destruct (Hb1 n1 Hin1) as (Ha1 & Hd1 & He1).
    destruct (Hb2 n2 Hin2) as (Ha2 & Hd2 & He2).
    split; lra.
Qed.

Lemma interrupted_step_skip (m : LiveServerMessage) (s : State) :
  is_interruption m = false -> interrupted_step m s = s.
Proof.
  unfold is_interruption, interrupted_step.
  destruct (serverContent m) as [sc |]; [| reflexivity].
  intros ->; reflexivity.
Qed.

Lemma audio_dispatch_scheduled (m : LiveServerMessage) (clk : Clock)
    (s : State) :
  exists new, scheduled_between s (state_of (audio_dispatch m clk s)) new.
Proof.
  unfold audio_dispatch.
  destruct (audioData_of m) as [[a |] |];
    try (exists []; apply scheduled_between_same; reflexivity).
  destruct (truthy a);
    [| exists []; apply scheduled_between_same; reflexivity].
  destruct (decodes a) as [buffer |] eqn:Hd.
  - destruct (audio_step_schedules a clk s buffer Hd)
      as (s' & -> & Hn & Hc & _).
    eexists; unfold scheduled_between; simpl.
    pose proof (duration_nonneg buffer).
    pose proof (Q.le_max_l (nextStartTimeRef s) (currentTime clk)).
    repeat split; [exact Hn | rewrite Hc; lra | | ].
    + constructor; [| constructor]. simpl. rewrite Hc.
      repeat split; lra.
    + simpl; auto.
  - destruct (audio_step_rejects a clk s Hd) as (s' & -> & Hn & _ & Hc).
    exists []; unfold scheduled_between; simpl.
    rewrite Hn, Hc, app_nil_r. repeat split; auto.
    apply Q.le_max_l.
Qed.

Lemma onmessage_scheduled (m : LiveServerMessage) (clk : Clock)
    (s : State) :
  is_interruption m = false ->
  exists new, scheduled_between s (state_of (onmessage m clk s)) new.
Proof.
  intros Hi. unfold onmessage.
  set (s1 := turnComplete_step m clk (transcription_step m s)).
  assert (Hv : scheduler_view s1 = scheduler_view s).
  { unfold s1. rewrite turnComplete_step_scheduler.
    apply transcription_step_scheduler. }
  unfold scheduler_view in Hv. injection Hv as Hc _ Hn.
  destruct (audio_dispatch_scheduled m clk s1) as [new Hnew].
  exists new.
  assert (H1 : scheduled_between s s1 [])
    by (apply scheduled_between_same; assumption).
  assert (H2 : scheduled_between s (state_of (audio_dispatch m clk s1)) new)
    by (apply (scheduled_between_trans s s1 _ [] new); assumption).
  destruct (audio_dispatch m clk s1) as [s2 | s2]; simpl in *.
  - rewrite interrupted_step_skip by exact Hi. exact H2.
  - exact H2.
Qed.

(** An audio fragment only runs the audio branch. *)
Lemma onmessage_audioFragment (a : string) (clk : Clock) (s : State) :
  truthy a = true ->
  onmessage (audioFragment a) clk s = audio_step a clk s.
Proof.
  intros Ht.
  unfold onmessage, audio_dispatch, transcription_step, turnComplete_step.
  cbn [audioFragment serverContent inputTranscription outputTranscription
       turnComplete audioData_of modelTurn parts inlineData inlineBytes].
  rewrite Ht.
  destruct (audio_step a clk s); reflexivity.
Qed.

Lemma decodes_truthy (a : string) (buffer : AudioBuffer) :
  decodes a = Some buffer -> truthy a = true.
Proof. destruct a; [discriminate | reflexivity]. Qed.

Lemma connect_scheduler (env : ConnectEnv) (s : State) :
  scheduler_view (connect env s) = scheduler_view s.
Proof.
  destruct s as [? ? ? ? ? ? ref ? ? ? ? ? ? ? ? ?].
  destruct env as [k ri ro g c].
  destruct ref as [[i o] |]; destruct k, ri, ro, g, c; reflexivity.
Qed.

Lemma disconnect_scheduler (s : State) :
  scheduler_view (disconnect s) = scheduler_view s.
Proof.
  unfold disconnect; destruct (sessionPromiseRef s); reflexivity.
Qed.

Lemma step_scheduled (s : State) (e : Event) :
  interruption_free [e] = true ->
  exists new, scheduled_between s (step s e) new.
Proof.
  intros Hfree.
  assert (Hview : forall s',
             scheduler_view s' = scheduler_view s ->
             exists new, scheduled_between s s' new).
  { intros s' Hv. unfold scheduler_view in Hv. injection Hv as Hc _ Hn.
    exists []. apply scheduled_between_same; assumption. }
  destruct e; cbn [step].
  - apply Hview, connect_scheduler.
  - apply Hview, disconnect_scheduler.
  - apply Hview. unfold click.
    destruct (render_control (status s)) as [| []];
      auto using connect_scheduler, disconnect_scheduler.
  - apply Hview. unfold onopen; simpl.
    destruct (nth_error (sessions s) sid); reflexivity.
  - apply Hview. unfold onaudioprocess.
    destruct (nth_error (captureGraphs s) g); reflexivity.
  - apply onmessage_scheduled.
    simpl in Hfree. destruct (is_interruption m); [discriminate | auto].
  - apply Hview. unfold onerror. destruct (includes _ _); reflexivity.
  - apply Hview. reflexivity.
  - exists []. apply scheduled_between_same; unfold onended; simpl;
      destruct (_ =? _)%nat; reflexivity.
  - apply Hview. reflexivity.
  - apply Hview. reflexivity.
Qed.

Lemma run_scheduled (evs : list Event) (s : State) :
  interruption_free evs = true ->
  exists new, scheduled_between s (run s evs) new.
Proof.
  revert s; induction evs as [| e evs IH]; intros s Hfree.
  - exists []. apply scheduled_between_same; reflexivity.
  - simpl in Hfree. apply andb_prop in Hfree as [He Hevs].
    destruct (step_scheduled s e) as [new1 H1].
    { simpl. rewrite He. reflexivity. }
    destruct (IH (step s e) Hevs) as [new2 H2].
    exists (new1 ++ new2). simpl.
    eapply scheduled_between_trans; eassumption.
Qed.

(** C1: along any run without an interruption, whatever the clock reads
    at each arrival, the buffers scheduled during the run, in call
    order, have non-decreasing start times and each starts no earlier
    than its predecessor ends; none starts before the cursor the run
    began with and none ends after the final cursor. Each one buffer is
    started at [max(cursor, now)] and moves the cursor by its
    duration. *)
Theorem scheduled_buffers_never_overlap
    (s : State) (evs : list Event)
    (a : string) (clk : Clock) (buffer : AudioBuffer) :
  interruption_free evs = true ->
  decodes a = Some buffer ->
  (exists new,
      sourceNodes (run s evs) = sourceNodes s ++ new
      /\ no_overlap new
      /\ Forall (fun n => nextStartTimeRef s <= startTime n
                          /\ startTime n + nodeDuration n
                             <= nextStartTimeRef (run s evs)) new)
  /\ (exists s',
         onmessage (audioFragment a) clk s = Returned s'
         /\ sourceNodes s'
            = sourceNodes s
                ++ [ {| startTime :=
                          Qmax (nextStartTimeRef s) (currentTime clk);
                        nodeDuration := duration buffer;
                        stopped := false |} ]
         /\ nextStartTimeRef s'
            = Qmax (nextStartTimeRef s) (currentTime clk)
              + duration buffer).
Proof.
  intros Hfree Hd. split.
  - destruct (run_scheduled evs s Hfree) as (new & Hn & _ & Hb & Ho).
    exists new. repeat split; auto.
    eapply Forall_impl; [| exact Hb].
    intros n (H1 & _ & H3). split; assumption.
  - rewrite onmessage_audioFragment by (eapply decodes_truthy; eassumption).
    destruct (audio_step_schedules a clk s buffer Hd)
      as (s' & Hs & Hn & Hc & _).
    exists s'; repeat split; assumption.
Qed.

Lemma scheduled_buffers_never_overlap_witness :
  interruption_free Samples.burst = true
  /\ exists new,
       sourceNodes (run Samples.connectedState Samples.burst)
       = sourceNodes Samples.connectedState ++ new
       /\ no_overlap new
       /\ Forall (fun n =>
                    nextStartTimeRef Samples.connectedState <= startTime n
                    /\ startTime n + nodeDuration n
                       <= nextStartTimeRef
                            (run Samples.connectedState Samples.burst))
                 new.
Proof.
  split; [reflexivity |].
  refine (proj1 (scheduled_buffers_never_overlap
                   Samples.connectedState Samples.burst
                   Samples.threeSamples (Samples.clockAt 5 1000)
                   Samples.threeSamplesBuffer _ _));
    vm_compute; reflexivity.
Defined.

(** *** Interruption *)

Lemma nth_error_update_nth {A : Type} (f : A -> A) (l : list A)
    (i j : nat) :
  nth_error (update_nth i f l) j
  = if (i =? j)%nat then option_map f (nth_error l j) else nth_error l j.
Proof.
  revert i j; induction l as [| x r IH]; intros [| i] [| j]; simpl; auto.
  destruct (_ =? _)%nat; reflexivity.
Qed.

(** The loop [for (const s of sourcesRef.current.values()) s.stop()]. *)
Lemma stop_loop_stops (ids : list nat) (nodes : list SourceNode)
    (n : nat) (node : SourceNode) :
  nth_error nodes n = Some node ->
  exists node',
    nth_error (fold_left (fun nodes i => update_nth i stop nodes) ids nodes)
              n = Some node'
    /\ (node' = node \/ node' = stop node)
    /\ (In n ids -> node' = stop node).
Proof.
  revert nodes node; induction ids as [| i r IH]; intros nodes node Hn.
  - exists node; simpl; repeat split; auto. intros [].
  - simpl.
    pose proof (nth_error_update_nth stop nodes i n) as Hu.
    rewrite Hn in Hu. simpl in Hu.
    destruct (i =? n)%nat eqn:Hin.
    + destruct (IH _ _ Hu) as (node' & Hr & Hor & _).
      exists node'. split; [exact Hr |].
      assert (node' = stop node) by (destruct Hor; subst; reflexivity).
      auto.
    + destruct (IH _ _ Hu) as (node' & Hr & Hor & Himp).
      exists node'. repeat split; auto.
      intros [Heq | Hin']; auto.
      subst. rewrite Nat.eqb_refl in Hin. discriminate.
Qed.

Lemma audio_dispatch_returns (m : LiveServerMessage) (clk : Clock)
    (s : State) :
  audio_ok m = true ->
  exists s2 new,
    audio_dispatch m clk s = Returned s2
    /\ incl (sourcesRef s) (sourcesRef s2)
    /\ sourceNodes s2 = sourceNodes s ++ new.
Proof.
  unfold audio_ok, audio_dispatch.
  destruct (audioData_of m) as [[a |] |]; try discriminate.
  - destruct (truthy a); simpl.
    + destruct (decodes a) as [buffer |] eqn:Hd; [| discriminate].
      intros _.
      destruct (audio_step_schedules a clk s buffer Hd)
        as (s' & -> & Hn & _ & Hs & _).
      exists s'; eexists; repeat split; [| exact Hn].
      rewrite Hs. intros x Hx. apply set_add_intro1. exact Hx.
    + intros _. exists s, []. rewrite app_nil_r.
      repeat split. apply incl_refl.
  - intros _. exists s, []. rewrite app_nil_r.
    repeat split. apply incl_refl.
Qed.

(** What a message with the interruption flag leaves behind, once its
    other parts have been handled. *)
Lemma onmessage_interruption (m : LiveServerMessage) (clk : Clock)
    (s : State) :
  is_interruption m = true ->
  audio_ok m = true ->
  exists s',
    onmessage m clk s = Returned s'
    /\ sourcesRef s' = []
    /\ nextStartTimeRef s' = 0
    /\ isAssistantTalking s' = false
    /\ (forall n node,
           In n (sourcesRef s) ->
           nth_error (sourceNodes s) n = Some node ->
           nth_error (sourceNodes s') n = Some (stop node)).
Proof.
  intros Hi Hok. unfold onmessage.
  set (s1 := turnComplete_step m clk (transcription_step m s)).
  assert (Hv : scheduler_view s1 = scheduler_view s).
  { unfold s1. rewrite turnComplete_step_scheduler.
    apply transcription_step_scheduler. }
  unfold scheduler_view in Hv. injection Hv as _ Hs Hn.
  destruct (audio_dispatch_returns m clk s1 Hok)
    as (s2 & new & -> & Hincl & Hnodes).
  eexists; split; [reflexivity |].
  unfold is_interruption in Hi. unfold interrupted_step.
  destruct (serverContent m) as [sc |]; [| discriminate].
  rewrite Hi. simpl.
  repeat split.
  intros n node Hin Hnth.
  destruct (stop_loop_stops (sourcesRef s2) (sourceNodes s2) n node)
    as (node' & Hr & _ & Hstop).
  { rewrite Hnodes, Hn. rewrite nth_error_app1; [exact Hnth |].
    apply nth_error_Some. congruence. }
  rewrite Hr. f_equal. apply Hstop. apply Hincl. rewrite Hs. exact Hin.
Qed.

(** C3: whatever handles are in the active set and whenever they were
    scheduled to start, handling one message that carries the
    interruption flag (its audio part, if any, being decodable) returns
    with an empty active set, [isActive()] false, the talking flag
    cleared, and every handle that was tracked stopped. *)
Theorem interruption_clears_active_set
    (m : LiveServerMessage) (clk : Clock) (s : State) :
  is_interruption m = true ->
  audio_ok m = true ->
  exists s',
    onmessage m clk s = Returned s'
    /\ sourcesRef s' = []
    /\ isActive s' = false
    /\ isAssistantTalking s' = false
    /\ (forall n node,
           In n (sourcesRef s) ->
           nth_error (sourceNodes s) n = Some node ->
           nth_error (sourceNodes s') n = Some (stop node)).
Proof.
  intros Hi Hok.
  destruct (onmessage_interruption m clk s Hi Hok)
    as (s' & Hr & Hs & _ & Ht & Hstop).
  exists s'. repeat split; auto.
  unfold isActive. rewrite Hs. reflexivity.
Qed.

Lemma interruption_clears_active_set_witness :
  sourcesRef Samples.talkingState = [0; 1; 2]%nat
  /\ exists s',
       onmessage interruptionSignal (Samples.clockAt 9 1003)
                 Samples.talkingState = Returned s'
       /\ sourcesRef s' = []
       /\ isActive s' = false
       /\ isAssistantTalking s' = false
       /\ (forall n node,
              In n (sourcesRef Samples.talkingState) ->
              nth_error (sourceNodes Samples.talkingState) n = Some node ->
              nth_error (sourceNodes s') n = Some (stop node)).
Proof.
  split; [vm_compute; reflexivity |].
  apply (interruption_clears_active_set interruptionSignal
           (Samples.clockAt 9 1003) Samples.talkingState);
    reflexivity.
Defined.

(** C4, as stated, fails: after an interruption handled while the
    output clock reads 9 seconds, the cursor is 0, not 9. *)
Lemma interruption_cursor_is_not_clock :
  let clk := Samples.clockAt 9 1003 in
  let s' := state_of (onmessage interruptionSignal clk
                                Samples.talkingState) in
  nextStartTimeRef s' = 0
  /\ ~ nextStartTimeRef s' == currentTime clk.
Proof.
  split; vm_compute; [reflexivity | intros H; discriminate H].
Qed.

(** C4, amended: the reset performed on an interruption sets the cursor
    to 0; the next buffer scheduled, at a clock reading that is not
    negative, starts at that reading, because a buffer starts at
    [max(cursor, now)]. *)
Theorem interruption_resets_cursor_to_zero
    (m : LiveServerMessage) (clk : Clock) (s : State)
    (a : string) (clk2 : Clock) (buffer : AudioBuffer) :
  is_interruption m = true ->
  audio_ok m = true ->
  decodes a = Some buffer ->
  0 <= currentTime clk2 ->
  exists s' s2 node,
    onmessage m clk s = Returned s'
    /\ nextStartTimeRef s' = 0
    /\ onmessage (audioFragment a) clk2 s' = Returned s2
    /\ sourceNodes s2 = sourceNodes s' ++ [node]
    /\ startTime node = Qmax 0 (currentTime clk2)
    /\ startTime node == currentTime clk2
    /\ nodeDuration node = duration buffer.
Proof.
  intros Hi Hok Hd Hnow.
  destruct (onmessage_interruption m clk s Hi Hok)
    as (s' & Hr & _ & Hc & _).
  destruct (audio_step_schedules a clk2 s' buffer Hd)
    as (s2 & Hs2 & Hn & _).
  exists s', s2; eexists.
  rewrite onmessage_audioFragment by (eapply decodes_truthy; eassumption).
  repeat split; [exact Hr | exact Hc | exact Hs2 | exact Hn | | | ]; simpl.
  - rewrite Hc; reflexivity.
  - rewrite Hc. apply Q.max_r. exact Hnow.
  - reflexivity.
Qed.

Lemma interruption_resets_cursor_to_zero_witness :
  exists s' s2 node,
    onmessage interruptionSignal (Samples.clockAt 9 1003)
              Samples.talkingState = Returned s'
    /\ nextStartTimeRef s' = 0
    /\ onmessage (audioFragment Samples.threeSamples)
                 (Samples.clockAt 12 1004) s' = Returned s2
    /\ sourceNodes s2 = sourceNodes s' ++ [node]
    /\ startTime node = Qmax 0 12
    /\ startTime node == 12
    /\ nodeDuration node = duration Samples.threeSamplesBuffer.
Proof.
  refine (interruption_resets_cursor_to_zero
            interruptionSignal (Samples.clockAt 9 1003)
            Samples.talkingState Samples.threeSamples
            (Samples.clockAt 12 1004) Samples.threeSamplesBuffer
            _ _ _ _);
    vm_compute; first [reflexivity | discriminate].
Defined.

End PlaybackScheduler.

(** ** The codec *)

Section Base64.

(** Induction three bytes at a time, as [btoa] consumes them. *)
Lemma list_ind3 {A : Type} (P : list A -> Prop) :
  P [] -> (forall a, P [a]) -> (forall a b, P [a; b]) ->
  (forall a b c r, P r -> P (a :: b :: c :: r)) ->
  forall l, P l.
Proof.
  intros H0 H1 H2 H3.
  assert (H : forall l, P l /\ (forall a, P (a :: l))
                        /\ (forall a b, P (a :: b :: l))).
  { induction l as [| x r (IH0 & IH1 & IH2)]; repeat split; auto. }
  intros l; apply H.
Qed.

Lemma charCodeAt_fromCharCode (b : Z) :
  is_byte b -> charCodeAt (fromCharCode b) = b.
Proof.
  unfold is_byte, charCodeAt, fromCharCode. intros H.
  rewrite N_ascii_embedding; lia.
Qed.

Lemma fromCharCode_charCodeAt (c : ascii) :
  fromCharCode (charCodeAt c) = c.
Proof.
  unfold charCodeAt, fromCharCode.
  rewrite N2Z.id. apply ascii_N_embedding.
Qed.

Lemma charCodeAt_is_byte (c : ascii) : is_byte (charCodeAt c).
Proof.
  unfold is_byte, charCodeAt.
  pose proof (N_ascii_bounded c). lia.
Qed.

Lemma sextet_in_range (v : Z) : is_sextet v -> In v sextet_range.
Proof.
  unfold is_sextet, sextet_range. intros H.
  apply in_map_iff. exists (Z.to_nat v). split; [lia |].
  apply in_seq. lia.
Qed.

Lemma alphabet_checked :
  forallb (fun v =>
             match b64val (b64char v) with
             | Some w => Z.eqb w v
             | None => false
             end
             && negb (is_whitespace (b64char v))
             && negb (is_pad (b64char v)))%bool
          sextet_range = true.
Proof. vm_compute. reflexivity. Qed.

Lemma alphabet_facts (v : Z) :
  is_sextet v ->
  b64val (b64char v) = Some v
  /\ is_whitespace (b64char v) = false
  /\ is_pad (b64char v) = false.
Proof.
  intros H. apply sextet_in_range in H.
  pose proof alphabet_checked as Hall.
  rewrite forallb_forall in Hall. specialize (Hall v H).
  apply andb_prop in Hall as [Hall Hp].
  apply andb_prop in Hall as [Hv Hw].
  destruct (b64val (b64char v)) as [w |]; [| discriminate].
  apply Z.eqb_eq in Hv. subst w.
  repeat split.
  - destruct (is_whitespace _); [discriminate | reflexivity].
  - destruct (is_pad _); [discriminate | reflexivity].
Qed.

Lemma btoa_codes_split (l : list Z) :
  btoa_codes l = map b64char (sextets_of l) ++ padding_of l.
Proof.
  induction l as [| a | a b | a b c r IH] using list_ind3;
    try reflexivity.
  cbn [btoa_codes sextets_of padding_of map app]. rewrite IH. reflexivity.
Qed.

Lemma sextets_of_range (l : list Z) :
  Forall is_byte l -> Forall is_sextet (sextets_of l).
Proof.
  unfold is_byte, is_sextet.
  induction l as [| a | a b | a b c r IH] using list_ind3; intros H.
  - constructor.
  - inversion_clear H. cbn [sextets_of].
    repeat constructor; Z.div_mod_to_equations; lia.
  - inversion_clear H as [| ? ? Ha H']. inversion_clear H'.
    cbn [sextets_of].
    repeat constructor; Z.div_mod_to_equations; lia.
  - inversion_clear H as [| ? ? Ha H']. inversion_clear H' as [| ? ? Hb H''].
    inversion_clear H'' as [| ? ? Hc Hr].
    cbn [sextets_of].
    repeat (constructor; [Z.div_mod_to_equations; lia |]).
    apply IH; exact Hr.
Qed.

Lemma atob_sextets_of (l : list Z) :
  Forall is_byte l -> atob_sextets (sextets_of l) = l.
Proof.
  unfold is_byte.
  induction l as [| a | a b | a b c r IH] using list_ind3; intros H.
  - reflexivity.
  - inversion_clear H. cbn [sextets_of atob_sextets].
    f_equal. Z.div_mod_to_equations; lia.
  - inversion_clear H as [| ? ? Ha H']. inversion_clear H'.
    cbn [sextets_of atob_sextets].
    f_equal; [| f_equal]; Z.div_mod_to_equations; lia.
  - inversion_clear H as [| ? ? Ha H']. inversion_clear H' as [| ? ? Hb H''].
    inversion_clear H'' as [| ? ? Hc Hr].
    cbn [sextets_of atob_sextets]. rewrite (IH Hr).
    f_equal; [| f_equal; [| f_equal]]; Z.div_mod_to_equations; lia.
Qed.

Lemma padding_of_cases (l : list Z) :
  padding_of l = [] \/ padding_of l = [pad] \/ padding_of l = [pad; pad].
Proof.
  induction l as [| a | a b | a b c r IH] using list_ind3; simpl; auto.
Qed.

Lemma btoa_length (l : list Z) :
  Z.of_nat (List.length (sextets_of l) + List.length (padding_of l)) mod 4
  = 0
  /\ Z.of_nat (List.length (sextets_of l)) mod 4 <> 1.
Proof.
  induction l as [| a | a b | a b c r [IH1 IH2]] using list_ind3;
    try (split; [reflexivity | discriminate]).
  cbn [sextets_of padding_of List.length].
  split.
  - replace (Z.of_nat (S (S (S (S (List.length (sextets_of r)))))
                       + List.length (padding_of r)))
      with (Z.of_nat (List.length (sextets_of r)
                      + List.length (padding_of r)) + 1 * 4) by lia.
    rewrite Z.mod_add by lia. exact IH1.
  - replace (Z.of_nat (S (S (S (S (List.length (sextets_of r)))))))
      with (Z.of_nat (List.length (sextets_of r)) + 1 * 4) by lia.
    rewrite Z.mod_add by lia. exact IH2.
Qed.

Lemma filter_alphabet (sx : list Z) :
  Forall is_sextet sx ->
  filter (fun c => negb (is_whitespace c)) (map b64char sx)
  = map b64char sx.
Proof.
  induction 1 as [| v r Hv _ IH]; simpl; [reflexivity |].
  destruct (alphabet_facts v Hv) as (_ & -> & _). simpl.
  rewrite IH. reflexivity.
Qed.

Lemma filter_btoa_codes (l : list Z) :
  Forall is_byte l ->
  filter (fun c => negb (is_whitespace c)) (btoa_codes l) = btoa_codes l.
Proof.
  intros H. rewrite btoa_codes_split, filter_app.
  rewrite filter_alphabet by (apply sextets_of_range; exact H).
  f_equal.
  destruct (padding_of_cases l) as [-> | [-> | ->]]; reflexivity.
Qed.

Lemma last_is_not_pad (sx : list Z) (c : ascii) (r : list ascii) :
  Forall is_sextet sx -> rev (map b64char sx) = c :: r ->
  is_pad c = false.
Proof.
  intros H Hrev.
  assert (Hin : In c (map b64char sx)).
  { apply in_rev. rewrite Hrev. left; reflexivity. }
  apply in_map_iff in Hin as (v & <- & Hv).
  rewrite Forall_forall in H.
  apply (alphabet_facts v (H v Hv)).
Qed.

Lemma strip_padding_btoa_codes (l : list Z) :
  Forall is_byte l ->
  strip_padding (btoa_codes l) = map b64char (sextets_of l).
Proof.
  intros H.
  pose proof (sextets_of_range l H) as Hsx.
  destruct (btoa_length l) as [Hlen _].
  rewrite btoa_codes_split. unfold strip_padding.
  rewrite length_app, length_map, Hlen. cbn [Z.eqb].
  rewrite rev_app_distr.
  set (body := map b64char (sextets_of l)) in *.
  pose proof (rev_involutive body) as Hinv.
  pose proof (last_is_not_pad (sextets_of l)) as Hlast.
  fold body in Hlast.
  destruct (padding_of_cases l) as [-> | [-> | ->]]; cbn [rev app].
  - rewrite app_nil_r.
    destruct (rev body) as [| p1 [| p2 r]] eqn:Hrev; try reflexivity.
    + rewrite (Hlast p1 [] Hsx eq_refl). reflexivity.
    + rewrite (Hlast p1 (p2 :: r) Hsx eq_refl). reflexivity.
  - destruct (rev body) as [| p2 r] eqn:Hrev.
    + simpl in Hinv. rewrite <- Hinv. reflexivity.
    + cbn [app]. change (is_pad pad) with true. cbv iota.
      rewrite (Hlast p2 r Hsx eq_refl). exact Hinv.
  - destruct (rev body) as [| p2 r] eqn:Hrev.
    + simpl in Hinv. rewrite <- Hinv. reflexivity.
    + cbn [app]. change (is_pad pad) with true. cbv iota.
      exact Hinv.
Qed.

Lemma sextets_alphabet (sx : list Z) :
  Forall is_sextet sx -> sextets (map b64char sx) = Some sx.
Proof.
  induction 1 as [| v r Hv _ IH]; simpl; [reflexivity |].
  destruct (alphabet_facts v Hv) as (-> & _ & _).
  rewrite IH. reflexivity.
Qed.

(** [atob] undoes [btoa] on every binary string. *)
Lemma atob_btoa (binary : string) : atob (btoa binary) = Some binary.
Proof.
  unfold atob, btoa.
  set (l := map charCodeAt (list_ascii_of_string binary)).
  assert (Hl : Forall is_byte l).
  { unfold l. apply Forall_forall. intros b Hb.
    apply in_map_iff in Hb as (c & <- & _). apply charCodeAt_is_byte. }
  rewrite list_ascii_of_string_of_list_ascii.
  rewrite filter_btoa_codes by exact Hl.
  rewrite strip_padding_btoa_codes by exact Hl.
  rewrite length_map.
  destruct (btoa_length l) as [_ Hmod].
  destruct (Z.eqb_spec (Z.of_nat (List.length (sextets_of l)) mod 4) 1)
    as [Heq | _]; [contradiction |].
  rewrite sextets_alphabet by (apply sextets_of_range; exact Hl).
  rewrite atob_sextets_of by exact Hl.
  unfold l. rewrite map_map.
  rewrite (map_ext _ (fun c => c)) by (intros; apply fromCharCode_charCodeAt).
  rewrite map_id. rewrite string_of_list_ascii_of_string. reflexivity.
Qed.

Lemma binary_of_bytes (bytes : list Z) (acc : string) :
  list_ascii_of_string
    (fold_left (fun acc b => (acc ++ String (fromCharCode b) EmptyString)%string)
               bytes acc)
  = list_ascii_of_string acc ++ map fromCharCode bytes.
Proof.
  revert acc; induction bytes as [| b r IH]; intros acc; simpl.
  - rewrite app_nil_r. reflexivity.
  - rewrite IH.
    assert (Happ : forall a c,
               list_ascii_of_string (a ++ String c EmptyString)%string
               = list_ascii_of_string a ++ [c]).
    { clear. induction a as [| x a IHa]; intros c; simpl;
        [reflexivity | rewrite IHa; reflexivity]. }
    rewrite Happ, <- app_assoc. reflexivity.
Qed.

(** [decode] undoes [encode] on every byte array. *)
Lemma decode_encode (bytes : list Z) :
  Forall is_byte bytes -> decode (encode bytes) = Some bytes.
Proof.
  intros H. unfold decode, encode. rewrite atob_btoa.
  rewrite binary_of_bytes. simpl. rewrite map_map.
  f_equal. rewrite <- (map_id bytes) at 2.
  apply map_ext_in. intros b Hb.
  rewrite Forall_forall in H.
  apply charCodeAt_fromCharCode. auto.
Qed.

End Base64.

Section PCM16.

Lemma Uint8_of_Int16_bytes (l : list Z) : Forall is_byte (Uint8_of_Int16 l).
Proof.
  unfold Uint8_of_Int16, is_byte.
  induction l as [| v r IH]; simpl; [constructor |].
  repeat (constructor; [Z.div_mod_to_equations; lia |]). exact IH.
Qed.

Lemma Int16_of_Uint8_of_Int16 (l : list Z) :
  Forall is_int16 l -> Int16_of_Uint8 (Uint8_of_Int16 l) = Some l.
Proof.
  unfold is_int16.
  induction 1 as [| v r Hv _ IH]; [reflexivity |].
  cbn [Uint8_of_Int16 flat_map app Int16_of_Uint8].
  fold (Uint8_of_Int16 r). rewrite IH. do 2 f_equal.
  destruct (Z.geb_spec (v mod 65536 mod 256 + 256 * (v mod 65536 / 256))
                       32768);
    Z.div_mod_to_equations; lia.
Qed.

(** Truncating [n * 32768 / d] for [-1 <= n / d < 1]. *)
Lemma trunc_bounds (n : Z) (d : positive) :
  - Z.pos d <= n < Z.pos d ->
  let t := Z.quot (n * 32768) (Z.pos d) in
  is_int16 t /\ - Z.pos d < t * Z.pos d - n * 32768 < Z.pos d.
Proof.
  intros H t. unfold is_int16.
  pose proof (Z.quot_rem' (n * 32768) (Z.pos d)) as Hq. fold t in Hq.
  destruct (Z_le_gt_dec 0 n) as [Hn | Hn].
  - pose proof (Z.rem_bound_pos (n * 32768) (Z.pos d)) as Hr.
    specialize (Hr ltac:(lia) ltac:(lia)).
    nia.
  - pose proof (Z.rem_bound_pos_neg (n * 32768) (Z.pos d)) as Hr.
    specialize (Hr ltac:(lia) ltac:(lia)).
    nia.
Qed.

(** A sample in [-1, 1) is stored without wrap-around and comes back
    less than one quantization step away. *)
Lemma sample_roundtrip (s : Q) :
  (-1 <= s)%Q -> (s < 1)%Q ->
  let v := ToInt16 (s * 32768) in
  is_int16 v /\ (Qabs (inject_Z v / 32768 - s) < quantum)%Q.
Proof.
  intros Hlo Hhi v. destruct s as [n d].
  unfold Qle, Qlt in Hlo, Hhi. simpl in Hlo, Hhi.
  destruct (trunc_bounds n d ltac:(lia)) as [Ht Herr].
  assert (Hv : v = Z.quot (n * 32768) (Z.pos d)).
  { unfold v, ToInt16. cbn [Qnum Qden Qmult]. rewrite Pos.mul_1_r.
    unfold is_int16 in Ht.
    destruct (Z.geb_spec ((n * 32768 ÷ Z.pos d) mod 65536) 32768);
      Z.div_mod_to_equations; lia. }
  rewrite Hv. split; [exact Ht |].
  apply Qabs_Qlt_condition.
  unfold quantum, Qlt, Qminus, Qplus, Qdiv, Qmult, Qinv, Qopp, inject_Z.
  cbn [Qnum Qden].
  set (t := n * 32768 ÷ Z.pos d) in *.
  rewrite ?Pos2Z.inj_mul.
  split; nia.
Qed.

Lemma map_nth_seq {A B : Type} (f : A -> B) (d : A) (l : list A) :
  map (fun i => f (nth (i * 1 + 0) l d)) (seq 0 (List.length l))
  = map f l.
Proof.
  induction l as [| x r IH]; [reflexivity |].
  cbn [List.length seq map]. f_equal.
  rewrite <- seq_shift, map_map. rewrite <- IH.
  apply map_ext. intros i.
  rewrite !Nat.mul_1_r, !Nat.add_0_r. reflexivity.
Qed.

(** One channel: the buffer holds the 16-bit values divided by 32768. *)
Lemma decodeAudioData_mono (bytes dataInt16 : list Z) (rate : Z) :
  Int16_of_Uint8 bytes = Some dataInt16 ->
  dataInt16 <> [] ->
  decodeAudioData bytes rate 1
  = Some {| numberOfChannels := 1;
            frames := List.length dataInt16;
            bufferRate := rate;
            channelData :=
              [ map (fun v => inject_Z v / 32768)%Q dataInt16 ] |}.
Proof.
  intros H Hne. unfold decodeAudioData. rewrite H.
  rewrite Nat.div_1_r.
  destruct dataInt16 as [| v r]; [contradiction |].
  cbn [List.length Nat.eqb orb seq map].
  do 3 f_equal.
  exact (map_nth_seq (fun v => inject_Z v / 32768)%Q 0 (v :: r)).
Qed.

(** The store into the [Int16Array] truncates toward zero; it does not
    round. *)
Lemma ToInt16_truncates :
  ToInt16 (3 # 4) = 0 /\ ToInt16 (- (3 # 4)) = 0 /\ ToInt16 (7 # 4) = 1.
Proof. repeat split. Qed.

(** X4: Encoding then decoding a non-empty block of samples in [-1, 1)
    succeeds and gives back every sample less than one quantization step
    away. *)
Lemma roundtrip_below_full_scale (samples : list Q) :
  samples <> [] ->
  Forall in_half_open_range samples ->
  exists decoded,
    roundtrip samples = Some decoded
    /\ Forall2 (fun s d => Qabs (d - s) < quantum)%Q samples decoded.
Proof.
  intros Hne Hrange.
  set (int16 := map (fun s => ToInt16 (s * 32768)) samples).
  assert (Hint : Forall is_int16 int16).
  { unfold int16. apply Forall_map.
    eapply Forall_impl; [| exact Hrange].
    intros s [Hlo Hhi]. apply (sample_roundtrip s Hlo Hhi). }
  exists (map (fun v => inject_Z v / 32768)%Q int16).
  split.
  - unfold roundtrip, createBlob. cbn [data]. fold int16.
    rewrite decode_encode by apply Uint8_of_Int16_bytes.
    rewrite (decodeAudioData_mono _ int16 24000).
    + reflexivity.
    + apply Int16_of_Uint8_of_Int16. exact Hint.
    + unfold int16. destruct samples; [contradiction | discriminate].
  - unfold int16. rewrite map_map. clear int16 Hint Hne.
    induction Hrange as [| s r [Hlo Hhi] _ IH]; simpl; constructor.
    + apply (sample_roundtrip s Hlo Hhi).
    + exact IH.
Qed.

(** C2 at the full-scale sample [1.0], which lies in [-1, 1]: it is
    stored as 32768, which wraps to -32768, and comes back as [-1.0], two
    units away and not within one quantization step. *)
Theorem full_scale_sample_wraps :
  (-1 <= 1 <= 1)%Q
  /\ ToInt16 (1 * 32768) = -32768
  /\ data (createBlob [1%Q]) = "AIA="
  /\ roundtrip [1%Q] = Some [ (-32768 # 32768)%Q ]
  /\ (Qabs ((-32768 # 32768) - 1) == 2)%Q
  /\ ~ (Qabs ((-32768 # 32768) - 1) <= quantum)%Q.
Proof.
  repeat split; try (vm_compute; reflexivity);
    try (vm_compute; discriminate).
  vm_compute. intros H. apply H. reflexivity.
Qed.

End PCM16.

(** ** The codec beyond the documented range *)

Section CodecEdges.

(** X1: [decode] gives back the bytes [encode] was given, for every byte
    array. *)
Theorem decode_inverts_encode (bytes : list Z) :
  Forall is_byte bytes -> decode (encode bytes) = Some bytes.
Proof. exact (decode_encode bytes). Qed.

Lemma decode_inverts_encode_witness :
  decode (encode [0; 128; 255; 7]) = Some [0; 128; 255; 7].
Proof.
  apply decode_inverts_encode.
  repeat constructor; unfold is_byte; lia.
Defined.

Lemma btoa_codes_length (l : list Z) :
  List.length (btoa_codes l) = (4 * ((List.length l + 2) / 3))%nat.
Proof.
  induction l as [| a | a b | a b c r IH] using list_ind3;
    try reflexivity.
  cbn [btoa_codes List.length]. rewrite IH.
  replace (S (S (S (List.length r))) + 2)%nat
    with (List.length r + 2 + 1 * 3)%nat by lia.
  rewrite Nat.div_add by lia. lia.
Qed.

Lemma btoa_codes_transport_safe (l : list Z) :
  Forall is_byte l ->
  forallb transport_safe (btoa_codes l) = true.
Proof.
  intros H. rewrite btoa_codes_split, forallb_app.
  apply andb_true_intro; split.
  - pose proof (sextets_of_range l H) as Hsx.
    induction Hsx as [| v r Hv _ IH]; [reflexivity |].
    cbn [map forallb]. rewrite IH. unfold transport_safe.
    destruct (alphabet_facts v Hv) as (-> & _ & _). reflexivity.
  - destruct (padding_of_cases l) as [-> | [-> | ->]]; reflexivity.
Qed.

Lemma string_of_list_ascii_length (l : list ascii) :
  String.length (string_of_list_ascii l) = List.length l.
Proof. induction l as [| c r IH]; simpl; [| rewrite IH]; reflexivity. Qed.

(** X2: The payload [encode] writes for [n] bytes has [4 * ceil(n / 3)]
    characters, each a base64 letter or the padding sign. *)
Theorem encode_length_and_alphabet (bytes : list Z) :
  String.length (encode bytes)
  = (4 * ((List.length bytes + 2) / 3))%nat
  /\ forallb transport_safe (list_ascii_of_string (encode bytes)) = true.
Proof.
  unfold encode, btoa.
  rewrite binary_of_bytes. cbn [list_ascii_of_string app].
  rewrite string_of_list_ascii_length, list_ascii_of_string_of_list_ascii.
  rewrite btoa_codes_length, !length_map. split; [reflexivity |].
  apply btoa_codes_transport_safe.
  apply Forall_forall. intros b Hb.
  apply in_map_iff in Hb as (c & <- & _). apply charCodeAt_is_byte.
Qed.

Lemma ToInt16_range (x : Q) : is_int16 (ToInt16 x).
Proof.
  unfold ToInt16, is_int16.
  destruct (Z.geb_spec ((Qnum x ÷ Z.pos (Qden x)) mod 65536) 32768);
    Z.div_mod_to_equations; lia.
Qed.

Lemma quantize_range (s : Q) : in_half_open_range (quantize s).
Proof.
  unfold quantize, in_half_open_range.
  pose proof (ToInt16_range (s * 32768)) as H. unfold is_int16 in H.
  set (v := ToInt16 (s * 32768)) in *.
  unfold Qle, Qlt, Qdiv, Qmult, Qinv, inject_Z. cbn [Qnum Qden].
  split; lia.
Qed.

(** X3: The byte packing and the base64 transport lose nothing: a non-empty
    block comes back as its samples quantized one by one, each in
    [-1, 1), whatever the input values; the empty block cannot be decoded
    ([createBuffer] rejects a zero length). *)
Theorem roundtrip_is_quantization (samples : list Q) :
  roundtrip samples
  = match samples with
    | [] => None
    | _ :: _ => Some (map quantize samples)
    end
  /\ Forall in_half_open_range (map quantize samples).
Proof.
  split.
  - unfold roundtrip, createBlob. cbn [data].
    rewrite decode_encode by apply Uint8_of_Int16_bytes.
    destruct samples as [| s r]; [reflexivity |].
    set (int16 := map (fun s => ToInt16 (s * 32768)) (s :: r)).
    rewrite (decodeAudioData_mono _ int16 24000).
    + cbn [channelData nth_error]. unfold int16. rewrite map_map.
      reflexivity.
    + apply Int16_of_Uint8_of_Int16. unfold int16.
      apply Forall_map, Forall_forall. intros x _. apply ToInt16_range.
    + discriminate.
  - apply Forall_map, Forall_forall. intros x _. apply quantize_range.
Qed.

Lemma roundtrip_below_full_scale_witness :
  exists decoded,
    roundtrip [-1; 1 # 2; 0; 32767 # 32768]%Q = Some decoded
    /\ Forall2 (fun s d => Qabs (d - s) < quantum)%Q
               [-1; 1 # 2; 0; 32767 # 32768]%Q decoded.
Proof.
  apply roundtrip_below_full_scale; [discriminate |].
  repeat constructor; vm_compute; discriminate.
Defined.

(** Truncating [n * 32768 / d] for [0 <= n / d]. *)
Lemma trunc_nonneg (n : Z) (d : positive) :
  0 <= n ->
  let t := Z.quot (n * 32768) (Z.pos d) in
  0 <= n * 32768 - t * Z.pos d < Z.pos d.
Proof.
  intros H t.
  pose proof (Z.quot_rem' (n * 32768) (Z.pos d)) as Hq. fold t in Hq.
  pose proof (Z.rem_bound_pos (n * 32768) (Z.pos d)) as Hr.
  specialize (Hr ltac:(lia) ltac:(lia)).
  nia.
Qed.

(** X5: Nothing clamps: a sample in [1, 3) is stored modulo 2^16 and comes
    back two units lower, less than one quantization step away from
    [s - 2]. *)
Theorem overdriven_sample_wraps (s : Q) :
  (1 <= s)%Q -> (s < 3)%Q ->
  (Qabs (quantize s - (s - 2)) < quantum)%Q.
Proof.
  intros Hlo Hhi. destruct s as [n d].
  unfold Qle, Qlt in Hlo, Hhi. simpl in Hlo, Hhi.
  pose proof (trunc_nonneg n d ltac:(lia)) as Herr. cbv zeta in Herr.
  assert (Hv : ToInt16 ((n # d) * 32768)
               = Z.quot (n * 32768) (Z.pos d) - 65536).
  { unfold ToInt16. cbn [Qnum Qden Qmult]. rewrite Pos.mul_1_r.
    set (t := n * 32768 ÷ Z.pos d) in *.
    assert (32768 <= t < 98304) by nia.
    destruct (Z.geb_spec (t mod 65536) 32768);
      Z.div_mod_to_equations; lia. }
  unfold quantize. rewrite Hv.
  set (t := n * 32768 ÷ Z.pos d) in *.
  apply Qabs_Qlt_condition.
  unfold quantum, Qlt, Qminus, Qplus, Qdiv, Qmult, Qinv, Qopp, inject_Z.
  cbn [Qnum Qden].
  rewrite ?Pos2Z.inj_mul.
  split; nia.
Qed.

Lemma overdriven_sample_wraps_witness :
  (Qabs (quantize (3 # 2) - ((3 # 2) - 2)) < quantum)%Q.
Proof.
  apply overdriven_sample_wraps; vm_compute; [discriminate | reflexivity].
Defined.

(** The [Int16Array] view exists exactly for an even byte count and has
    half as many elements, each in the 16-bit range when the bytes are
    bytes. *)
Lemma Int16_of_Uint8_shape (l : list Z) :
  match Int16_of_Uint8 l with
  | None => Nat.odd (List.length l) = true
  | Some v =>
      Nat.even (List.length l) = true
      /\ List.length v = (List.length l / 2)%nat
      /\ (Forall is_byte l -> Forall is_int16 v)
  end.
Proof.
  assert (H : forall l,
             match Int16_of_Uint8 l with
             | None => Nat.odd (List.length l) = true
             | Some v =>
                 Nat.even (List.length l) = true
                 /\ List.length v = (List.length l / 2)%nat
                 /\ (Forall is_byte l -> Forall is_int16 v)
             end
             /\ forall x,
                 match Int16_of_Uint8 (x :: l) with
                 | None => Nat.odd (List.length (x :: l)) = true
                 | Some v =>
                     Nat.even (List.length (x :: l)) = true
                     /\ List.length v = (List.length (x :: l) / 2)%nat
                     /\ (Forall is_byte (x :: l) -> Forall is_int16 v)
                 end).
  { clear l. induction l as [| y r [IH0 IH1]].
    - split; [| intros x]; simpl; repeat split; auto.
    - split; [apply IH1 |]. intros x.
      cbn [Int16_of_Uint8].
      destruct (Int16_of_Uint8 r) as [v |].
      + destruct IH0 as (He & Hl & Hr).
        cbn [List.length]. repeat split.
        * exact He.
        * rewrite Hl.
          replace (S (S (List.length r))) with (List.length r + 1 * 2)%nat
            by lia.
          rewrite Nat.div_add by lia. lia.
        * intros Hb. inversion_clear Hb as [| ? ? Hx Hb'].
          inversion_clear Hb' as [| ? ? Hy Hb''].
          constructor; [| auto].
          unfold is_byte in Hx, Hy. unfold is_int16.
          destruct (Z.geb_spec (x + 256 * y) 32768); lia.
      + exact IH0. }
  apply H.
Qed.


(** X7: Every sample [decodeAudioData] produces from a byte array lies in
    [-1, 1). *)
Theorem decoded_samples_in_range (bytes : list Z) (rate : Z) (nc : nat)
    (buffer : AudioBuffer) :
  Forall is_byte bytes ->
  decodeAudioData bytes rate nc = Some buffer ->
  Forall (Forall in_half_open_range) (channelData buffer).
Proof.
  intros Hb. unfold decodeAudioData.
  pose proof (Int16_of_Uint8_shape bytes) as Hv.
  destruct (Int16_of_Uint8 bytes) as [v |]; [| discriminate].
  destruct Hv as (_ & _ & Hr). specialize (Hr Hb).
  destruct (_ || _)%bool; [discriminate |].
  intros [= <-]. cbn [channelData].
  apply Forall_map, Forall_forall. intros channel _.
  apply Forall_map, Forall_forall. intros i _.
  assert (Hn : is_int16 (nth (i * nc + channel) v 0)).
  { destruct (nth_in_or_default (i * nc + channel) v 0) as [Hin | ->].
    - rewrite Forall_forall in Hr. auto.
    - unfold is_int16; lia. }
  unfold is_int16 in Hn. unfold in_half_open_range.
  unfold Qle, Qlt, Qdiv, Qmult, Qinv, inject_Z. cbn [Qnum Qden].
  split; lia.
Qed.

Lemma decoded_samples_in_range_witness :
  Forall (Forall in_half_open_range)
         (channelData Samples.stereoBuffer).
Proof.
  apply (decoded_samples_in_range [0; 128; 255; 127; 1; 0; 255; 255]
           24000 2 Samples.stereoBuffer).
  - repeat constructor; unfold is_byte; lia.
  - reflexivity.
Defined.

End CodecEdges.

(** ** The transcript along whole traces *)

Section TranscriptLog.

Lemma append_assoc (a b c : string) :
  ((a ++ b) ++ c = a ++ (b ++ c))%string.
Proof. induction a as [| x a IH]; simpl; [| rewrite IH]; reflexivity. Qed.

Lemma append_nil_r (a : string) : (a ++ "")%string = a.
Proof. induction a as [| x a IH]; simpl; [| rewrite IH]; reflexivity. Qed.

Lemma fragment_step (r : Role) (d : string) (clk : Clock) (s : State) :
  onmessage (fragment r d) clk s
  = Returned
      (setTranscriptRef
         match r with
         | user =>
             {| userText := (userText (transcriptRef s) ++ d)%string;
                assistantText := assistantText (transcriptRef s) |}
         | assistant =>
             {| userText := userText (transcriptRef s);
                assistantText :=
                  (assistantText (transcriptRef s) ++ d)%string |}
         end s).
Proof.
  destruct s as [? ? ? ? ? ? ? ? ? ? [u a] ? ? ? ? ?].
  destruct r; unfold onmessage, transcription_step, turnComplete_step,
    audio_dispatch, interrupted_step; cbn; reflexivity.
Qed.

(** X8: Fragments of the two roles may arrive interleaved in any way: each
    buffer grows by the deltas of its own role, in arrival order; the log
    and the playback scheduler are not touched. *)
Theorem fragments_accumulate_per_role
    (l : list (Role * string * Clock)) (s : State) :
  let s' := run s (fragment_events l) in
  userText (transcriptRef s')
  = (userText (transcriptRef s) ++ spoken user l)%string
  /\ assistantText (transcriptRef s')
     = (assistantText (transcriptRef s) ++ spoken assistant l)%string
  /\ messages s' = messages s
  /\ scheduler_view s' = scheduler_view s.
Proof.
  revert s; induction l as [| [[r d] clk] rest IH]; intros s; cbn zeta.
  - cbn. rewrite !append_nil_r. repeat split.
  - cbn [fragment_events map run fold_left step fst snd].
    rewrite fragment_step. cbn [state_of].
    specialize (IH (setTranscriptRef
                      match r with
                      | user =>
                          {| userText :=
                               (userText (transcriptRef s) ++ d)%string;
                             assistantText := assistantText (transcriptRef s) |}
                      | assistant =>
                          {| userText := userText (transcriptRef s);
                             assistantText :=
                               (assistantText (transcriptRef s) ++ d)%string |}
                      end s)).
    cbn zeta in IH. unfold run, fragment_events in *.
    destruct IH as (Hu & Ha & Hm & Hv).
    rewrite Hu, Ha, Hm, Hv.
    destruct r; cbn; rewrite ?append_assoc; repeat split.
Qed.

Lemma newMessages_finalized (clk : Clock) (t : Transcript) :
  finalized_turn (newMessages clk t).
Proof.
  unfold finalized_turn, newMessages.
  destruct (truthy (userText t)) eqn:Hu, (truthy (assistantText t)) eqn:Ha;
    cbn; repeat split; auto.
Qed.

Lemma transcription_step_messages (m : LiveServerMessage) (s : State) :
  messages (transcription_step m s) = messages s.
Proof.
  unfold transcription_step.
  destruct (serverContent m) as [sc |]; [| reflexivity].
  destruct (inputTranscription sc), (outputTranscription sc); reflexivity.
Qed.

Lemma turnComplete_step_messages (m : LiveServerMessage) (clk : Clock)
    (s : State) :
  exists t,
    messages (turnComplete_step m clk s) = messages s ++ newMessages clk t.
Proof.
  unfold turnComplete_step.
  pose (none := {| userText := ""; assistantText := "" |}).
  destruct (serverContent m) as [sc |];
    [| exists none; cbn; rewrite app_nil_r; reflexivity].
  destruct (turnComplete sc);
    [| exists none; cbn; rewrite app_nil_r; reflexivity].
  destruct (_ || _)%bool;
    [exists (transcriptRef s); reflexivity
    | exists none; cbn; rewrite app_nil_r; reflexivity].
Qed.

Lemma audio_dispatch_messages (m : LiveServerMessage) (clk : Clock)
    (s : State) :
  messages (state_of (audio_dispatch m clk s)) = messages s.
Proof.
  unfold audio_dispatch.
  destruct (audioData_of m) as [[a |] |]; try reflexivity.
  destruct (truthy a); [| reflexivity].
  unfold audio_step.
  destruct (decode a) as [bytes |]; [| reflexivity].
  destruct (decodeAudioData bytes 24000 1); reflexivity.
Qed.

Lemma interrupted_step_messages (m : LiveServerMessage) (s : State) :
  messages (interrupted_step m s) = messages s.
Proof.
  unfold interrupted_step.
  destruct (serverContent m) as [sc |]; [| reflexivity].
  destruct (interrupted sc); reflexivity.
Qed.

Lemma onmessage_messages (m : LiveServerMessage) (clk : Clock)
    (s : State) :
  exists t,
    messages (state_of (onmessage m clk s))
    = messages s ++ newMessages clk t.
Proof.
  unfold onmessage.
  destruct (turnComplete_step_messages m clk (transcription_step m s))
    as [t Ht].
  rewrite transcription_step_messages in Ht.
  exists t. rewrite <- Ht.
  set (s1 := turnComplete_step m clk (transcription_step m s)).
  pose proof (audio_dispatch_messages m clk s1) as Ha.
  destruct (audio_dispatch m clk s1) as [s2 | s2]; cbn in *.
  - rewrite interrupted_step_messages. exact Ha.
  - exact Ha.
Qed.

Lemma connect_messages (env : ConnectEnv) (s : State) :
  messages (connect env s) = messages s.
Proof.
  destruct s as [? ? ? ? ? ? ref ? ? ? ? ? ? ? ? ?].
  destruct env as [k ri ro g c].
  destruct ref as [[i o] |]; destruct k, ri, ro, g, c; reflexivity.
Qed.

Lemma disconnect_messages (s : State) :
  messages (disconnect s) = messages s.
Proof. unfold disconnect; destruct (sessionPromiseRef s); reflexivity. Qed.

Lemma step_log (s : State) (e : Event) :
  clears_log e = false ->
  exists new,
    messages (step s e) = messages s ++ new /\ finalized_turn new.
Proof.
  intros Hc.
  assert (Hsame : forall s',
             messages s' = messages s ->
             exists new,
               messages s' = messages s ++ new /\ finalized_turn new).
  { intros s' ->. exists []. rewrite app_nil_r. split; [reflexivity |].
    unfold finalized_turn; cbn; repeat split; auto. }
  destruct e; cbn [step]; try discriminate Hc.
  - apply Hsame, connect_messages.
  - apply Hsame, disconnect_messages.
  - apply Hsame. unfold click.
    destruct (render_control (status s)) as [| []];
      auto using connect_messages, disconnect_messages.
  - apply Hsame. unfold onopen; cbn.
    destruct (nth_error (sessions s) sid); reflexivity.
  - apply Hsame. unfold onaudioprocess.
    destruct (nth_error (captureGraphs s) g); reflexivity.
  - destruct (onmessage_messages m clk s) as [t Ht].
    exists (newMessages clk t). split; [exact Ht |].
    apply newMessages_finalized.
  - apply Hsame. unfold onerror. destruct (includes _ _); reflexivity.
  - apply Hsame. reflexivity.
  - apply Hsame. unfold onended; cbn. destruct (_ =? _)%nat; reflexivity.
  - apply Hsame. reflexivity.
Qed.

(** X9: Apart from the explicit clearing of the log, no event removes or
    rewrites a record: an event appends the records of at most one
    finalized turn (at most one per role, the user's first, none with an
    empty text). *)
Theorem log_grows_by_finalized_turns (s : State) (e : Event) :
  clears_log e = false ->
  exists new,
    messages (step s e) = messages s ++ new /\ finalized_turn new.
Proof. exact (step_log s e). Qed.

Lemma log_grows_by_finalized_turns_witness :
  exists new,
    messages (step Samples.talkingState
                   (Incoming turnCompleteSignal (Samples.clockAt 9 1003)))
    = messages Samples.talkingState ++ new
    /\ finalized_turn new.
Proof.
  apply log_grows_by_finalized_turns. reflexivity.
Defined.

Lemma run_log_nonempty_texts (evs : list Event) (s : State) :
  Forall (fun m => truthy (text m) = true) (messages s) ->
  Forall (fun m => truthy (text m) = true) (messages (run s evs)).
Proof.
  revert s; induction evs as [| e evs IH]; intros s H; [exact H |].
  cbn [run fold_left]. apply IH.
  destruct (clears_log e) eqn:Hc.
  - destruct e; try discriminate Hc. constructor.
  - destruct (step_log s e Hc) as (new & -> & _ & Hnew & _).
    apply Forall_app; split; assumption.
Qed.

(** X10: Whatever happens, the transcript log never holds a record with an
    empty text. *)
Theorem log_records_never_empty (evs : list Event) :
  Forall (fun m => truthy (text m) = true) (messages (run initial evs)).
Proof. apply run_log_nonempty_texts. constructor. Qed.

End TranscriptLog.

(** ** The playback scheduler along whole traces *)

Section PlaybackTraces.

Local Open Scope Q_scope.

Lemma timely_compat (l : list (string * Clock)) (c c' : Q) :
  c == c' -> timely c l -> timely c' l.
Proof.
  revert c c'; induction l as [| [a clk] rest IH]; intros c c' Hc; cbn;
    [auto |].
  destruct (decodes a) as [buffer |]; [| auto].
  intros [Hnow Hrest]. split.
  - rewrite <- Hc. exact Hnow.
  - apply (IH (c + duration buffer)); [rewrite Hc; reflexivity | exact Hrest].
Qed.

Lemma run_timely (l : list (string * Clock)) (s : State) :
  timely (nextStartTimeRef s) l ->
  exists new,
    sourceNodes (run s (audio_events l)) = sourceNodes s ++ new
    /\ List.length new = List.length l
    /\ contiguous new
    /\ match new with
       | n :: _ => startTime n == nextStartTimeRef s
       | [] => True
       end
    /\ nextStartTimeRef (run s (audio_events l))
       == nextStartTimeRef s + total_duration l.
Proof.
  revert s; induction l as [| [a clk] rest IH]; intros s Ht.
  - exists []. cbn. rewrite app_nil_r. repeat split; auto. lra.
  - cbn in Ht. destruct (decodes a) as [buffer |] eqn:Hd; [| contradiction].
    destruct Ht as [Hnow Hrest].
    cbn [audio_events map run fold_left step fst snd].
    rewrite onmessage_audioFragment
      by (eapply decodes_truthy; eassumption).
    destruct (audio_step_schedules a clk s buffer Hd)
      as (s1 & -> & Hn & Hc & _).
    cbn [state_of].
    pose proof (Q.max_l _ _ Hnow) as Hmax.
    assert (Ht1 : timely (nextStartTimeRef s1) rest).
    { apply (timely_compat rest (nextStartTimeRef s + duration buffer));
        [rewrite Hc, Hmax; reflexivity | exact Hrest]. }
    destruct (IH s1 Ht1) as (new & Hnodes & Hlen & Hcont & Hfirst & Hfin).
    fold (audio_events rest). fold (run s1 (audio_events rest)).
    eexists (_ :: new). repeat split.
    + rewrite Hnodes, Hn, <- app_assoc. reflexivity.
    + cbn. rewrite Hlen. reflexivity.
    + destruct new as [| n2 r]; [exact I |].
      cbn [startTime nodeDuration]. rewrite Hfirst, Hc. reflexivity.
    + exact Hcont.
    + cbn [startTime]. exact Hmax.
    + rewrite Hfin, Hc, Hmax. cbn [total_duration fst]. rewrite Hd. lra.
Qed.

(** X11: Buffers that each arrive before the ones already scheduled have
    finished are played back to back: the first starts at the cursor, each
    next one exactly where its predecessor ends, and the cursor ends up
    advanced by the sum of the durations. *)
Theorem timely_buffers_play_gap_free
    (l : list (string * Clock)) (s : State) :
  timely (nextStartTimeRef s) l ->
  exists new,
    sourceNodes (run s (audio_events l)) = sourceNodes s ++ new
    /\ List.length new = List.length l
    /\ contiguous new
    /\ match new with
       | n :: _ => startTime n == nextStartTimeRef s
       | [] => True
       end
    /\ nextStartTimeRef (run s (audio_events l))
       == nextStartTimeRef s + total_duration l.
Proof. exact (run_timely l s). Qed.

Lemma timely_buffers_play_gap_free_witness :
  exists new,
    sourceNodes
      (run Samples.talkingState
           (audio_events [ (Samples.threeSamples, Samples.clockAt 9 1003);
                           (Samples.threeSamples, Samples.clockAt 9 1004) ]))
    = sourceNodes Samples.talkingState ++ new
    /\ List.length new = 2%nat
    /\ contiguous new
    /\ match new with
       | n :: _ => startTime n == nextStartTimeRef Samples.talkingState
       | [] => True
       end
    /\ nextStartTimeRef
         (run Samples.talkingState
              (audio_events [ (Samples.threeSamples, Samples.clockAt 9 1003);
                              (Samples.threeSamples, Samples.clockAt 9 1004) ]))
       == nextStartTimeRef Samples.talkingState
          + total_duration
              [ (Samples.threeSamples, Samples.clockAt 9 1003);
                (Samples.threeSamples, Samples.clockAt 9 1004) ].
Proof.
  apply (timely_buffers_play_gap_free
           [ (Samples.threeSamples, Samples.clockAt 9 1003);
             (Samples.threeSamples, Samples.clockAt 9 1004) ]
           Samples.talkingState).
  vm_compute. repeat split; discriminate.
Defined.

(** X12: A buffer that arrives after everything scheduled has finished starts
    at the clock's reading: the silence since the cursor is not made up
    for, and the cursor restarts from the reading. *)
Theorem late_buffer_starts_at_arrival
    (a : string) (clk : Clock) (s : State) (buffer : AudioBuffer) :
  decodes a = Some buffer ->
  nextStartTimeRef s <= currentTime clk ->
  exists s' node,
    onmessage (audioFragment a) clk s = Returned s'
    /\ sourceNodes s' = sourceNodes s ++ [node]
    /\ startTime node == currentTime clk
    /\ nodeDuration node = duration buffer
    /\ nextStartTimeRef s' == currentTime clk + duration buffer
    /\ isAssistantTalking s' = true
    /\ isActive s' = true.
Proof.
  intros Hd Hlate.
  rewrite onmessage_audioFragment by (eapply decodes_truthy; eassumption).
  destruct (audio_step_schedules a clk s buffer Hd)
    as (s' & Hs & Hn & Hc & Hset & Ht).
  pose proof (Q.max_r _ _ Hlate) as Hmax.
  exists s'; eexists.
  repeat split; [exact Hs | exact Hn | | | | exact Ht |]; cbn.
  - exact Hmax.
  - reflexivity.
  - rewrite Hc, Hmax. reflexivity.
  - unfold isActive. rewrite Hset.
    destruct (set_add Nat.eq_dec (List.length (sourceNodes s))
                      (sourcesRef s)) eqn:Hadd; [| reflexivity].
    exfalso. apply (set_add_not_empty Nat.eq_dec _ _ Hadd).
Qed.

Lemma late_buffer_starts_at_arrival_witness :
  exists s' node,
    onmessage (audioFragment Samples.threeSamples)
              (Samples.clockAt 20 1005) Samples.talkingState = Returned s'
    /\ sourceNodes s' = sourceNodes Samples.talkingState ++ [node]
    /\ startTime node == 20
    /\ nodeDuration node = duration Samples.threeSamplesBuffer
    /\ nextStartTimeRef s' == 20 + duration Samples.threeSamplesBuffer
    /\ isAssistantTalking s' = true
    /\ isActive s' = true.
Proof.
  apply (late_buffer_starts_at_arrival Samples.threeSamples
           (Samples.clockAt 20 1005) Samples.talkingState
           Samples.threeSamplesBuffer);
    vm_compute; [reflexivity | discriminate].
Defined.

(** *** The active set *)

Lemma tracked_live_same (s s' : State) :
  sourcesRef s' = sourcesRef s -> sourceNodes s' = sourceNodes s ->
  tracked_live s -> tracked_live s'.
Proof. unfold tracked_live. intros -> ->. auto. Qed.

Lemma audio_dispatch_tracked (m : LiveServerMessage) (clk : Clock)
    (s : State) :
  tracked_live s -> tracked_live (state_of (audio_dispatch m clk s)).
Proof.
  intros H. unfold audio_dispatch.
  destruct (audioData_of m) as [[a |] |]; try exact H.
  destruct (truthy a); [| exact H].
  destruct (decodes a) as [buffer |] eqn:Hd.
  - destruct (audio_step_schedules a clk s buffer Hd)
      as (s' & -> & Hn & _ & Hs & _).
    cbn [state_of]. destruct H as [Hnd Hall].
    unfold tracked_live. rewrite Hs, Hn. split.
    + apply set_add_nodup. exact Hnd.
    + apply Forall_forall. intros n Hin.
      apply set_add_elim in Hin as [-> | Hin].
      * eexists. split;
          [ rewrite nth_error_app2, Nat.sub_diag by lia; reflexivity
          | reflexivity ].
      * rewrite Forall_forall in Hall.
        destruct (Hall n Hin) as (node & Hnth & Hst).
        exists node. split; [| exact Hst].
        rewrite nth_error_app1; [exact Hnth |].
        apply nth_error_Some. congruence.
  - destruct (audio_step_rejects a clk s Hd) as (s' & -> & Hn & Hs & _).
    cbn [state_of]. apply (tracked_live_same s); assumption.
Qed.

Lemma interrupted_step_tracked (m : LiveServerMessage) (s : State) :
  tracked_live s -> tracked_live (interrupted_step m s).
Proof.
  intros H. unfold interrupted_step.
  destruct (serverContent m) as [sc |]; [| exact H].
  destruct (interrupted sc); [| exact H].
  split; cbn; constructor.
Qed.

Lemma onmessage_tracked (m : LiveServerMessage) (clk : Clock) (s : State) :
  tracked_live s -> tracked_live (state_of (onmessage m clk s)).
Proof.
  intros H. unfold onmessage.
  set (s1 := turnComplete_step m clk (transcription_step m s)).
  assert (Hv : scheduler_view s1 = scheduler_view s).
  { unfold s1. rewrite turnComplete_step_scheduler.
    apply transcription_step_scheduler. }
  unfold scheduler_view in Hv. injection Hv as _ Hs Hn.
  assert (H1 : tracked_live s1) by (apply (tracked_live_same s); assumption).
  pose proof (audio_dispatch_tracked m clk s1 H1) as H2.
  destruct (audio_dispatch m clk s1) as [s2 | s2]; cbn in *.
  - apply interrupted_step_tracked. exact H2.
  - exact H2.
Qed.

Lemma onended_tracked (n : nat) (s : State) :
  tracked_live s -> tracked_live (onended n s).
Proof.
  intros [Hnd Hall].
  assert (H : tracked_live
                (setSourcesRef (set_remove Nat.eq_dec n (sourcesRef s)) s)).
  { split; cbn.
    - apply set_remove_nodup. exact Hnd.
    - apply Forall_forall. intros x Hin.
      apply set_remove_1 in Hin.
      rewrite Forall_forall in Hall. auto. }
  unfold onended. destruct (_ =? _)%nat; exact H.
Qed.

Lemma step_tracked (s : State) (e : Event) :
  tracked_live s -> tracked_live (step s e).
Proof.
  intros H.
  assert (Hview : forall s',
             scheduler_view s' = scheduler_view s -> tracked_live s').
  { intros s' Hv. unfold scheduler_view in Hv. injection Hv as _ Hs Hn.
    apply (tracked_live_same s); assumption. }
  destruct e; cbn [step].
  - apply Hview, connect_scheduler.
  - apply Hview, disconnect_scheduler.
  - apply Hview. unfold click.
    destruct (render_control (status s)) as [| []];
      auto using connect_scheduler, disconnect_scheduler.
  - apply Hview. unfold onopen; cbn.
    destruct (nth_error (sessions s) sid); reflexivity.
  - apply Hview. unfold onaudioprocess.
    destruct (nth_error (captureGraphs s) g); reflexivity.
  - apply onmessage_tracked. exact H.
  - apply Hview. unfold onerror. destruct (includes _ _); reflexivity.
  - apply Hview. reflexivity.
  - apply onended_tracked. exact H.
  - apply Hview. reflexivity.
  - apply Hview. reflexivity.
Qed.

(** X13: Whatever happens, the active set holds distinct nodes, each of which
    was started and has not been stopped. *)
Theorem active_set_tracks_live_nodes (evs : list Event) :
  tracked_live (run initial evs).
Proof.
  assert (H : forall evs s, tracked_live s -> tracked_live (run s evs)).
  { clear evs. induction evs as [| e evs IH]; intros s Hs; [exact Hs |].
    cbn [run fold_left]. apply IH, step_tracked, Hs. }
  apply H. split; constructor.
Qed.

Lemma run_ended (order : list nat) (s : State) :
  sourcesRef (run s (map Ended order))
  = fold_left (fun acc n => set_remove Nat.eq_dec n acc) order
              (sourcesRef s)
  /\ sourceNodes (run s (map Ended order)) = sourceNodes s
  /\ nextStartTimeRef (run s (map Ended order)) = nextStartTimeRef s.
Proof.
  revert s; induction order as [| n r IH]; intros s; [repeat split |].
  cbn [map run fold_left step].
  destruct (IH (onended n s)) as (H1 & H2 & H3).
  unfold run in *. rewrite H1, H2, H3.
  unfold onended; cbn. destruct (_ =? _)%nat; repeat split.
Qed.

Lemma remove_permutation (order l : list nat) :
  NoDup l -> Permutation order l ->
  fold_left (fun acc n => set_remove Nat.eq_dec n acc) order l = [].
Proof.
  revert l; induction order as [| x r IH]; intros l Hnd Hp.
  - apply Permutation_nil in Hp. subst. reflexivity.
  - cbn [fold_left]. apply IH.
    + apply set_remove_nodup. exact Hnd.
    + assert (Hin : In x l)
        by (apply (Permutation_in x Hp); left; reflexivity).
      assert (Hl : Permutation l (x :: set_remove Nat.eq_dec x l)).
      { clear Hp IH. induction l as [| y l IHl]; [destruct Hin |].
        cbn. destruct (Nat.eq_dec x y) as [-> | Hne]; [reflexivity |].
        destruct Hin as [-> | Hin]; [contradiction |].
        inversion_clear Hnd.
        rewrite (IHl ltac:(assumption) Hin) at 1. apply perm_swap. }
      apply (Permutation_cons_inv (a := x)).
      rewrite Hp. exact Hl.
Qed.

(** X14: Once the ['ended'] event of every tracked node has been handled, in
    whatever order they fire, the active set is empty and the talking flag
    is cleared; the cursor and the nodes are untouched. *)
Theorem all_buffers_ended_clears_talking (order : list nat) (s : State) :
  NoDup (sourcesRef s) ->
  Permutation order (sourcesRef s) ->
  order <> [] ->
  let s' := run s (map Ended order) in
  sourcesRef s' = []
  /\ isActive s' = false
  /\ isAssistantTalking s' = false
  /\ sourceNodes s' = sourceNodes s
  /\ nextStartTimeRef s' = nextStartTimeRef s.
Proof.
  intros Hnd Hp Hne s'.
  destruct (run_ended order s) as (Hset & Hnodes & Hcur).
  fold s' in Hset, Hnodes, Hcur.
  rewrite (remove_permutation order _ Hnd Hp) in Hset.
  repeat split; auto.
  - unfold isActive. rewrite Hset. reflexivity.
  - destruct (exists_last Hne) as (front & n & Hlast).
    subst s'. rewrite Hlast, map_app in *. unfold run in *.
    rewrite fold_left_app in *. cbn [map fold_left step] in *.
    set (s1 := fold_left step (map Ended front) s) in *.
    unfold onended in *. cbn in *.
    destruct (List.length (set_remove Nat.eq_dec n (sourcesRef s1)) =? 0)%nat
      eqn:Hz; cbn in *.
    + reflexivity.
    + rewrite Hset in Hz. discriminate Hz.
Qed.

Lemma all_buffers_ended_clears_talking_witness :
  let s' := run Samples.talkingState (map Ended [1; 0; 2]%nat) in
  sourcesRef s' = []
  /\ isActive s' = false
  /\ isAssistantTalking s' = false
  /\ sourceNodes s' = sourceNodes Samples.talkingState
  /\ nextStartTimeRef s' = nextStartTimeRef Samples.talkingState.
Proof.
  apply (all_buffers_ended_clears_talking [1; 0; 2]%nat
           Samples.talkingState).
  - replace (sourcesRef Samples.talkingState) with [0; 1; 2]%nat
      by (vm_compute; reflexivity).
    repeat constructor; cbn; intuition lia.
  - replace (sourcesRef Samples.talkingState) with [0; 1; 2]%nat
      by (vm_compute; reflexivity).
    apply perm_swap.
  - discriminate.
Defined.

(** *** Messages the handler cannot process *)

Lemma before_audio_talking (m : LiveServerMessage) (clk : Clock)
    (s : State) :
  isAssistantTalking (turnComplete_step m clk (transcription_step m s))
  = isAssistantTalking s.
Proof.
  unfold turnComplete_step, transcription_step.
  destruct (serverContent m) as [sc |]; [| reflexivity].
  destruct (inputTranscription sc), (outputTranscription sc),
    (turnComplete sc); cbn; try reflexivity;
    destruct (_ || _)%bool; reflexivity.
Qed.

(** X15: [onmessage] throws exactly when the audio part cannot be used: the
    model turn has no [parts], or a non-empty payload does not decode. In
    both cases the interruption flag of the same message is never looked
    at, so the active set and the nodes stay as they were; in the second
    case the talking flag has already been raised and the cursor lifted to
    the clock's reading. *)
Theorem onmessage_failure_modes (m : LiveServerMessage) (clk : Clock)
    (s : State) :
  match onmessage m clk s with
  | Returned _ => audio_ok m = true
  | Threw s' =>
      audio_ok m = false
      /\ sourcesRef s' = sourcesRef s
      /\ sourceNodes s' = sourceNodes s
      /\ ((audioData_of m = None
           /\ nextStartTimeRef s' = nextStartTimeRef s
           /\ isAssistantTalking s' = isAssistantTalking s)
          \/ (exists a,
                audioData_of m = Some (Some a)
                /\ truthy a = true
                /\ decodes a = None
                /\ nextStartTimeRef s'
                   = Qmax (nextStartTimeRef s) (currentTime clk)
                /\ isAssistantTalking s' = true))
  end.
Proof.
  unfold onmessage.
  set (s1 := turnComplete_step m clk (transcription_step m s)).
  assert (Hv : scheduler_view s1 = scheduler_view s).
  { unfold s1. rewrite turnComplete_step_scheduler.
    apply transcription_step_scheduler. }
  unfold scheduler_view in Hv. injection Hv as Hc Hs Hn.
  pose proof (before_audio_talking m clk s) as Ht. fold s1 in Ht.
  unfold audio_dispatch, audio_ok.
  destruct (audioData_of m) as [[a |] |].
  - destruct (truthy a) eqn:Hta; cbn [negb orb]; [| reflexivity].
    destruct (decodes a) as [buffer |] eqn:Hd.
    + destruct (audio_step_schedules a clk s1 buffer Hd) as (s2 & -> & _).
      reflexivity.
    + destruct (audio_step_rejects a clk s1 Hd)
        as (s2 & Hthrow & Hn2 & Hs2 & Hc2).
      rewrite Hthrow.
      repeat split; [congruence | congruence |].
      right. exists a. repeat split; auto; [congruence |].
      revert Hthrow. unfold audio_step.
      destruct (decode a) as [bytes |];
        [destruct (decodeAudioData bytes 24000 1) |];
        intros [= <-]; reflexivity.
  - reflexivity.
  - repeat split; auto.
Qed.

(** *** From the capture side to the playback side *)

Lemma createBlob_decodes (samples : list Q) :
  samples <> [] ->
  exists buffer,
    decodes (data (createBlob samples)) = Some buffer
    /\ frames buffer = List.length samples
    /\ duration buffer = (Z.of_nat (List.length samples) # 24000).
Proof.
  intros Hne. unfold decodes, createBlob. cbn [data].
  rewrite decode_encode by apply Uint8_of_Int16_bytes.
  set (int16 := map (fun s => ToInt16 (s * 32768)) samples).
  rewrite (decodeAudioData_mono _ int16 24000).
  - eexists. split; [reflexivity |]. unfold duration, int16.
    cbn [frames bufferRate]. rewrite length_map. split; reflexivity.
  - apply Int16_of_Uint8_of_Int16. unfold int16.
    apply Forall_map, Forall_forall. intros x _. apply ToInt16_range.
  - unfold int16. destruct samples; [contradiction | discriminate].
Qed.

(** X16: Every non-empty block that [createBlob] encodes is a payload the
    inbound audio branch accepts: it is scheduled as one buffer lasting
    [n / 24000] seconds for [n] samples, whatever the sample values. *)
Theorem captured_block_is_playable
    (samples : list Q) (clk : Clock) (s : State) :
  samples <> [] ->
  exists s' node,
    onmessage (audioFragment (data (createBlob samples))) clk s
    = Returned s'
    /\ sourceNodes s' = sourceNodes s ++ [node]
    /\ startTime node = Qmax (nextStartTimeRef s) (currentTime clk)
    /\ nodeDuration node = (Z.of_nat (List.length samples) # 24000)
    /\ nextStartTimeRef s'
       = Qmax (nextStartTimeRef s) (currentTime clk)
         + (Z.of_nat (List.length samples) # 24000).
Proof.
  intros Hne.
  destruct (createBlob_decodes samples Hne) as (buffer & Hd & _ & Hdur).
  rewrite onmessage_audioFragment by (eapply decodes_truthy; eassumption).
  destruct (audio_step_schedules _ clk s buffer Hd)
    as (s' & Hs & Hn & Hc & _).
  exists s'; eexists.
  repeat split; [exact Hs | exact Hn | | |]; cbn.
  - reflexivity.
  - exact Hdur.
  - rewrite Hc, Hdur. reflexivity.
Qed.

Lemma captured_block_is_playable_witness :
  exists s' node,
    onmessage (audioFragment (data (createBlob [1 # 4; 5; -7 # 3])))
              (Samples.clockAt 3 1000) initial
    = Returned s'
    /\ sourceNodes s' = sourceNodes initial ++ [node]
    /\ startTime node = Qmax (nextStartTimeRef initial) 3
    /\ nodeDuration node = (3 # 24000)
    /\ nextStartTimeRef s'
       = Qmax (nextStartTimeRef initial) 3 + (3 # 24000).
Proof.
  apply (captured_block_is_playable [1 # 4; 5; -7 # 3]
           (Samples.clockAt 3 1000) initial).
  discriminate.
Defined.

End PlaybackTraces.

(** ** Session lifecycle along whole traces *)

Section LifecycleTraces.

Lemma update_nth_idempotent {A : Type} (f : A -> A) (l : list A) (i : nat) :
  (forall x, f (f x) = f x) ->
  update_nth i f (update_nth i f l) = update_nth i f l.
Proof.
  intros Hf. revert i; induction l as [| x r IH]; intros [| j]; cbn;
    try reflexivity.
  - rewrite Hf. reflexivity.
  - rewrite IH. reflexivity.
Qed.

(** X17: [disconnect()] may be called again, or with no session at all: the
    second call changes nothing more. It never clears the session
    promise, and it touches neither the audio contexts, the microphone
    streams, the capture graphs nor the playback scheduler. *)
Theorem disconnect_is_idempotent (s : State) :
  disconnect (disconnect s) = disconnect s
  /\ sessionPromiseRef (disconnect s) = sessionPromiseRef s
  /\ lifecycle_view (disconnect s) = lifecycle_view s
  /\ scheduler_view (disconnect s) = scheduler_view s.
Proof.
  unfold disconnect.
  destruct (sessionPromiseRef s) as [sid |] eqn:Href.
  - cbn. rewrite Href. cbn.
    rewrite update_nth_idempotent by (intros []; reflexivity).
    repeat split.
  - cbn. rewrite Href. repeat split.
Qed.

(** *** Error classification *)

Lemma prefix_append (needle post : string) :
  prefix needle (needle ++ post) = true.
Proof.
  induction needle as [| c r IH]; cbn.
  - destruct post; reflexivity.
  - destruct (ascii_dec c c); [exact IH | contradiction].
Qed.

Lemma prefix_split (needle haystack : string) :
  prefix needle haystack = true ->
  exists post, haystack = (needle ++ post)%string.
Proof.
  revert haystack; induction needle as [| c r IH]; intros haystack H.
  - exists haystack. reflexivity.
  - destruct haystack as [| d h]; cbn in H; [discriminate |].
    destruct (ascii_dec c d) as [-> | _]; [| discriminate].
    destruct (IH h H) as [post ->]. exists post. reflexivity.
Qed.

Lemma includes_contains (haystack needle : string) :
  includes haystack needle = true <-> contains haystack needle.
Proof.
  unfold contains. split.
  - induction haystack as [| c h IH]; cbn [includes].
    + destruct (prefix needle "") eqn:Hp; [| discriminate].
      intros _. destruct (prefix_split _ _ Hp) as [post Hpost].
      exists "", post. exact Hpost.
    + destruct (prefix needle (String c h)) eqn:Hp.
      * intros _. destruct (prefix_split _ _ Hp) as [post Hpost].
        exists "", post. exact Hpost.
      * intros H. destruct (IH H) as (pre & post & ->).
        exists (String c pre), post. reflexivity.
  - intros (pre & post & ->).
    induction pre as [| c pre IH].
    + change ("" ++ needle ++ post)%string with (needle ++ post)%string.
      pose proof (prefix_append needle post) as Hp.
      destruct (needle ++ post)%string; cbn [includes]; rewrite Hp;
        reflexivity.
    + change (String c pre ++ needle ++ post)%string
        with (String c (pre ++ needle ++ post))%string.
      cbn [includes].
      destruct (prefix needle (String c (pre ++ needle ++ post)));
        [reflexivity | exact IH].
Qed.

(** X18: A channel error always moves the state to Error. The error slot gets
    the key-mismatch text exactly when the error's message contains
    "Requested entity was not found" anywhere, and the network text
    otherwise. The handler stops nothing: sessions, microphone streams,
    capture graphs, the listening and talking flags and the playback
    scheduler are left as they were. *)
Theorem onerror_classifies (e : JsError) (s : State) :
  let s' := onerror e s in
  status s' = error
  /\ ((contains (message e) "Requested entity was not found"
       /\ errorMessage s'
          = Some "API Key or Project mismatch. Please re-select your key.")
      \/ (~ contains (message e) "Requested entity was not found"
          /\ errorMessage s'
             = Some "Network error: Connection to Aura lost. Check your API key and connection."))
  /\ lifecycle_view s' = lifecycle_view s
  /\ sessions s' = sessions s
  /\ scheduler_view s' = scheduler_view s
  /\ isListening s' = isListening s
  /\ isAssistantTalking s' = isAssistantTalking s.
Proof.
  cbn zeta. unfold onerror.
  destruct (includes (message e) "Requested entity was not found") eqn:Hi.
  - repeat split. left. split; [| reflexivity].
    apply includes_contains. exact Hi.
  - repeat split. right. split; [| reflexivity].
    intros Hc. apply includes_contains in Hc. congruence.
Qed.

(** *** A successful connection *)

(** X19: When every awaited call of [connect()] resolves, the state is
    Connecting with an empty error slot; one live microphone stream and
    one session have been added, the session configured with the voice
    selected at that moment and bound to that stream, and the session
    promise points to it. When that session opens, the state is Connected,
    the listening flag is set, and one capture graph connects that stream
    to that session through the session's input context. *)
Theorem connect_then_open (env : ConnectEnv) (s : State) :
  keySelection env = Resolves ->
  resumeInput env = Resolves ->
  resumeOutput env = Resolves ->
  getUserMedia env = Resolves ->
  clientInit env = Resolves ->
  let s1 := connect env s in
  let sid := List.length (sessions s) in
  let s2 := onopen sid s1 in
  status s1 = connecting
  /\ errorMessage s1 = None
  /\ sessionPromiseRef s1 = Some sid
  /\ mediaStreams s1 = mediaStreams s ++ [ {| active := true |} ]
  /\ exists sess,
       sessions s1 = sessions s ++ [sess]
       /\ voiceName sess = selectedVoice s
       /\ stream sess = List.length (mediaStreams s)
       /\ Some (inputCtx sess, outputCtx sess) = audioContextRef s1
       /\ sent sess = []
       /\ closeRequested sess = false
       /\ status s2 = connected
       /\ isListening s2 = true
       /\ captureGraphs s2
          = captureGraphs s
              ++ [ {| graphSession := sid; graphCtx := inputCtx sess;
                      graphStream := stream sess;
                      graphConnected := true |} ].
Proof.
  intros Hk Hri Hro Hg Hc.
  destruct env as [k ri ro g c]; cbn in Hk, Hri, Hro, Hg, Hc; subst.
  destruct s as [? ? ? ? ? ? ref ? ? ? ? ? ? ? ss ?].
  destruct ref as [[i o] |]; cbn.
  - repeat split. eexists. split; [reflexivity |].
    unfold onopen; cbn.
    rewrite nth_error_app2, Nat.sub_diag by lia. cbn. repeat split.
  - repeat split. eexists. split; [reflexivity |].
    unfold onopen; cbn.
    rewrite nth_error_app2, Nat.sub_diag by lia. cbn. repeat split.
Qed.

Lemma connect_then_open_witness :
  status (connect Samples.allResolve initial) = connecting
  /\ status (onopen 0 (connect Samples.allResolve initial)) = connected
  /\ List.length
       (captureGraphs (onopen 0 (connect Samples.allResolve initial)))
     = 1%nat.
Proof.
  pose proof (connect_then_open Samples.allResolve initial
                eq_refl eq_refl eq_refl eq_refl eq_refl) as H.
  cbn zeta in H.
  destruct H as (H1 & _ & _ & _ & sess & _ & _ & _ & _ & _ & _ & H2 & _ & H3).
  split; [exact H1 |]. split; [exact H2 |].
  exact (f_equal (@List.length CaptureGraph) H3).
Defined.

(** *** A failure after the microphone was acquired *)

(** X20: When the client cannot be created after [getUserMedia] has resolved,
    the error is surfaced, but the microphone stream acquired by the
    attempt stays live; no session is created for it and the session
    promise still refers to whatever it referred to before. *)
Theorem client_failure_keeps_stream_live
    (env : ConnectEnv) (s : State) (err : JsError) :
  keySelection env = Resolves ->
  resumeInput env = Resolves ->
  resumeOutput env = Resolves ->
  getUserMedia env = Resolves ->
  clientInit env = Rejects err ->
  let s' := connect env s in
  status s' = error
  /\ errorMessage s'
     = Some (if truthy (message err) then message err
             else "Initialization failed. Ensure mic permissions are granted.")
  /\ mediaStreams s' = mediaStreams s ++ [ {| active := true |} ]
  /\ sessions s' = sessions s
  /\ sessionPromiseRef s' = sessionPromiseRef s
  /\ captureGraphs s' = captureGraphs s
  /\ capture_stopped s' = false
  /\ resources_released s' = false.
Proof.
  intros Hk Hri Hro Hg Hc.
  destruct env as [k ri ro g c]; cbn in Hk, Hri, Hro, Hg, Hc; subst.
  destruct s as [? ? ? ? ? ? ref ? ? ? ? ? ms ? ? ?].
  assert (Hlive : forallb (fun m => negb (active m))
                          (ms ++ [ {| active := true |} ]) = false).
  { rewrite forallb_app. cbn. apply andb_false_r. }
  destruct ref as [[i o] |]; cbn; unfold capture_stopped,
    resources_released; cbn; rewrite Hlive, ?andb_false_r;
    repeat split.
Qed.

Lemma client_failure_keeps_stream_live_witness :
  status (connect Samples.clientFails initial) = error
  /\ mediaStreams (connect Samples.clientFails initial)
     = [ {| active := true |} ]
  /\ sessions (connect Samples.clientFails initial) = [].
Proof.
  pose proof (client_failure_keeps_stream_live Samples.clientFails initial
                {| message := "An API Key must be set" |}
                eq_refl eq_refl eq_refl eq_refl eq_refl) as H.
  cbn zeta in H.
  destruct H as (H1 & _ & H3 & H4 & _).
  split; [exact H1 |]. split; [exact H3 | exact H4].
Defined.

(** *** What no handler does *)

Lemma connect_media (env : ConnectEnv) (s : State) :
  exists ms,
    mediaStreams (connect env s) = mediaStreams s ++ ms
    /\ forallb active ms = true
    /\ captureGraphs (connect env s) = captureGraphs s.
Proof.
  destruct s as [? ? ? ? ? ? ref ? ? ? ? ? ms0 ? ? ?].
  destruct env as [k ri ro g c].
  destruct ref as [[i o] |]; destruct k, ri, ro, g, c; cbn;
    first [ exists []; rewrite app_nil_r; repeat split; reflexivity
          | exists [ {| active := true |} ]; repeat split; reflexivity ].
Qed.

Lemma disconnect_media (s : State) :
  mediaStreams (disconnect s) = mediaStreams s
  /\ captureGraphs (disconnect s) = captureGraphs s.
Proof. unfold disconnect; destruct (sessionPromiseRef s); split; reflexivity. Qed.

Lemma step_media (s : State) (e : Event) :
  exists ms gs,
    mediaStreams (step s e) = mediaStreams s ++ ms
    /\ forallb active ms = true
    /\ captureGraphs (step s e) = captureGraphs s ++ gs
    /\ forallb graphConnected gs = true.
Proof.
  assert (Hsame : forall s',
             mediaStreams s' = mediaStreams s ->
             captureGraphs s' = captureGraphs s ->
             exists ms gs,
               mediaStreams s' = mediaStreams s ++ ms
               /\ forallb active ms = true
               /\ captureGraphs s' = captureGraphs s ++ gs
               /\ forallb graphConnected gs = true).
  { intros s' -> ->. exists [], []. rewrite !app_nil_r. repeat split. }
  assert (Hconnect : forall env,
             exists ms gs,
               mediaStreams (connect env s) = mediaStreams s ++ ms
               /\ forallb active ms = true
               /\ captureGraphs (connect env s) = captureGraphs s ++ gs
               /\ forallb graphConnected gs = true).
  { intros env. destruct (connect_media env s) as (ms & H1 & H2 & H3).
    exists ms, []. rewrite app_nil_r. repeat split; assumption. }
  destruct (disconnect_media s) as [Hd1 Hd2].
  destruct e; cbn [step].
  - apply Hconnect.
  - apply Hsame; assumption.
  - unfold click. destruct (render_control (status s)) as [| []];
      [apply Hsame; assumption | apply Hsame; reflexivity | apply Hconnect].
  - unfold onopen; cbn. destruct (nth_error (sessions s) sid) as [sess |].
    + exists []; eexists. rewrite app_nil_r. repeat split.
    + apply Hsame; reflexivity.
  - apply Hsame; unfold onaudioprocess;
      destruct (nth_error (captureGraphs s) g); reflexivity.
  - destruct (onmessage_lifecycle m clk s) as (Hv & _ & _).
    unfold lifecycle_view in Hv. injection Hv as _ _ H1 H2.
    apply Hsame; assumption.
  - apply Hsame; unfold onerror; destruct (includes _ _); reflexivity.
  - apply Hsame; reflexivity.
  - apply Hsame; unfold onended; cbn; destruct (_ =? _)%nat; reflexivity.
  - apply Hsame; reflexivity.
  - apply Hsame; reflexivity.
Qed.

(** X21: No event of any kind, neither [disconnect()], a channel close, a
    channel error nor a failed [connect()], stops a microphone stream or
    disconnects a capture graph: the streams and graphs that exist are
    kept as they are, and an event can only add live ones. *)
Theorem handlers_never_release_media (s : State) (e : Event) :
  exists ms gs,
    mediaStreams (step s e) = mediaStreams s ++ ms
    /\ forallb active ms = true
    /\ captureGraphs (step s e) = captureGraphs s ++ gs
    /\ forallb graphConnected gs = true.
Proof. exact (step_media s e). Qed.

Lemma transcription_step_session (m : LiveServerMessage) (s : State) :
  session_view (transcription_step m s) = session_view s.
Proof.
  unfold transcription_step.
  destruct (serverContent m) as [sc |]; [| reflexivity].
  destruct (inputTranscription sc), (outputTranscription sc); reflexivity.
Qed.

Lemma turnComplete_step_session (m : LiveServerMessage) (clk : Clock)
    (s : State) :
  session_view (turnComplete_step m clk s) = session_view s.
Proof.
  unfold turnComplete_step.
  destruct (serverContent m) as [sc |]; [| reflexivity].
  destruct (turnComplete sc); [| reflexivity].
  destruct (_ || _)%bool; reflexivity.
Qed.

Lemma audio_dispatch_session (m : LiveServerMessage) (clk : Clock)
    (s : State) :
  session_view (state_of (audio_dispatch m clk s)) = session_view s.
Proof.
  unfold audio_dispatch.
  destruct (audioData_of m) as [[a |] |]; try reflexivity.
  destruct (truthy a); [| reflexivity].
  unfold audio_step.
  destruct (decode a) as [bytes |]; [| reflexivity].
  destruct (decodeAudioData bytes 24000 1); reflexivity.
Qed.

Lemma interrupted_step_session (m : LiveServerMessage) (s : State) :
  session_view (interrupted_step m s) = session_view s.
Proof.
  unfold interrupted_step.
  destruct (serverContent m) as [sc |]; [| reflexivity].
  destruct (interrupted sc); reflexivity.
Qed.

Lemma onmessage_session (m : LiveServerMessage) (clk : Clock) (s : State) :
  session_view (state_of (onmessage m clk s)) = session_view s.
Proof.
  unfold onmessage.
  set (s1 := turnComplete_step m clk (transcription_step m s)).
  assert (H1 : session_view s1 = session_view s).
  { unfold s1. rewrite turnComplete_step_session.
    apply transcription_step_session. }
  pose proof (audio_dispatch_session m clk s1) as H2.
  destruct (audio_dispatch m clk s1) as [s2 | s2]; cbn in *.
  - rewrite interrupted_step_session. congruence.
  - congruence.
Qed.

(** X22: Inbound messages, end-of-playback events, capture blocks and clearing
    the log never change what the user sees of the session: the state,
    the error slot, the listening flag, the selected voice, and the
    session promise stay as they were, also when a message makes the
    handler throw. *)
Theorem media_events_leave_session_alone (s : State) (e : Event) :
  match e with
  | Incoming _ _ | Ended _ | AudioProcess _ _ | ClearLogs =>
      session_view (step s e) = session_view s
  | _ => True
  end.
Proof.
  destruct e; cbn [step]; try exact I.
  - unfold onaudioprocess.
    destruct (nth_error (captureGraphs s) g); reflexivity.
  - apply onmessage_session.
  - unfold onended; cbn. destruct (_ =? _)%nat; reflexivity.
  - reflexivity.
Qed.

(** X23: The error slot is only written by [connect()] and by the channel's
    error callback: every other event, a close or [disconnect()] included,
    leaves a message that is shown in place. *)
Theorem error_slot_persists (s : State) (e : Event) :
  may_replace_error s e = false ->
  errorMessage (step s e) = errorMessage s.
Proof.
  intros H. destruct e; cbn [step]; try discriminate H.
  - unfold disconnect; destruct (sessionPromiseRef s); reflexivity.
  - unfold click. cbn in H.
    destruct (render_control (status s)) as [| []]; try discriminate H;
      [unfold disconnect; destruct (sessionPromiseRef s) |]; reflexivity.
  - unfold onopen; cbn. destruct (nth_error (sessions s) sid); reflexivity.
  - unfold onaudioprocess.
    destruct (nth_error (captureGraphs s) g); reflexivity.
  - pose proof (onmessage_session m clk s) as Hv.
    unfold session_view in Hv. congruence.
  - reflexivity.
  - unfold onended; cbn. destruct (_ =? _)%nat; reflexivity.
  - reflexivity.
  - reflexivity.
Qed.

Lemma error_slot_persists_witness :
  errorMessage (run initial [ChannelError {| message := "socket closed" |};
                             Close])
  = errorMessage (run initial
                      [ChannelError {| message := "socket closed" |}]).
Proof.
  exact (error_slot_persists
           (run initial [ChannelError {| message := "socket closed" |}])
           Close eq_refl).
Defined.

(** *** Sessions *)

Lemma update_nth_map {A B : Type} (g : A -> B) (f : A -> A) (l : list A)
    (i : nat) :
  (forall x, g (f x) = g x) ->
  map g (update_nth i f l) = map g l.
Proof.
  intros Hg. revert i; induction l as [| x r IH]; intros [| j]; cbn;
    try reflexivity.
  - rewrite Hg. reflexivity.
  - rewrite IH. reflexivity.
Qed.

Lemma connect_voices (env : ConnectEnv) (s : State) :
  map voiceName (sessions (connect env s)) = map voiceName (sessions s)
  \/ map voiceName (sessions (connect env s))
     = map voiceName (sessions s) ++ [selectedVoice s].
Proof.
  destruct s as [? ? ? ? ? ? ref ? ? ? ? ? ? ? ss ?].
  destruct env as [k ri ro g c].
  destruct ref as [[i o] |]; destruct k, ri, ro, g, c; cbn;
    rewrite ?map_app; auto.
Qed.

Lemma disconnect_voices (s : State) :
  map voiceName (sessions (disconnect s)) = map voiceName (sessions s).
Proof.
  unfold disconnect; destruct (sessionPromiseRef s); cbn; [| reflexivity].
  apply update_nth_map. intros []; reflexivity.
Qed.

(** X24: A session keeps the voice it was opened with: no event changes the
    voice of an existing session, and a session that [connect()] adds
    has the voice selected at that moment. Changing the selection only
    affects sessions opened afterwards. *)
Theorem sessions_keep_their_voice (s : State) (e : Event) :
  map voiceName (sessions (step s e)) = map voiceName (sessions s)
  \/ map voiceName (sessions (step s e))
     = map voiceName (sessions s) ++ [selectedVoice s].
Proof.
  destruct e; cbn [step]; try (left; reflexivity).
  - apply connect_voices.
  - left. apply disconnect_voices.
  - unfold click. destruct (render_control (status s)) as [| []];
      [left; apply disconnect_voices | left; reflexivity
      | apply connect_voices].
  - left. unfold onopen; cbn.
    destruct (nth_error (sessions s) sid); reflexivity.
  - left. unfold onaudioprocess.
    destruct (nth_error (captureGraphs s) g); cbn; [| reflexivity].
    apply update_nth_map. intros []; reflexivity.
  - left. destruct (onmessage_lifecycle m clk s) as (_ & -> & _).
    reflexivity.
  - left. unfold onerror; destruct (includes _ _); reflexivity.
  - left. unfold onended; cbn; destruct (_ =? _)%nat; reflexivity.
Qed.

Lemma run_capture (g : nat) (blocks : list (list Q)) (s : State)
    (graph : CaptureGraph) (sess : LiveSession) :
  nth_error (captureGraphs s) g = Some graph ->
  nth_error (sessions s) (graphSession graph) = Some sess ->
  exists sess',
    nth_error (sessions (run s (map (AudioProcess g) blocks)))
              (graphSession graph) = Some sess'
    /\ sent sess' = sent sess ++ map createBlob blocks
    /\ voiceName sess' = voiceName sess
    /\ closeRequested sess' = closeRequested sess
    /\ session_view (run s (map (AudioProcess g) blocks)) = session_view s
    /\ scheduler_view (run s (map (AudioProcess g) blocks))
       = scheduler_view s.
Proof.
  revert s sess; induction blocks as [| d rest IH]; intros s sess Hg Hs.
  - exists sess. cbn. rewrite app_nil_r. repeat split. exact Hs.
  - cbn [map run fold_left step].
    assert (Hstep : onaudioprocess g d s
                    = setSessions
                        (update_nth (graphSession graph)
                           (fun sess =>
                              {| voiceName := voiceName sess;
                                 inputCtx := inputCtx sess;
                                 outputCtx := outputCtx sess;
                                 stream := stream sess;
                                 sent := sent sess ++ [createBlob d];
                                 closeRequested := closeRequested sess |})
                           (sessions s)) s).
    { unfold onaudioprocess. rewrite Hg. reflexivity. }
    rewrite Hstep.
    set (s1 := setSessions _ s).
    assert (Hg1 : nth_error (captureGraphs s1) g = Some graph) by exact Hg.
    assert (Hs1 : nth_error (sessions s1) (graphSession graph)
                  = Some {| voiceName := voiceName sess;
                            inputCtx := inputCtx sess;
                            outputCtx := outputCtx sess;
                            stream := stream sess;
                            sent := sent sess ++ [createBlob d];
                            closeRequested := closeRequested sess |}).
    { unfold s1; cbn. rewrite nth_error_update_nth, Nat.eqb_refl, Hs.
      reflexivity. }
    destruct (IH s1 _ Hg1 Hs1) as (sess' & Hn & Hsent & Hv & Hc & Hsv & Hsch).
    exists sess'. unfold run in *.
    repeat split; try assumption.
    rewrite Hsent. cbn. rewrite <- app_assoc. reflexivity.
Qed.

(** X25: Capture blocks are handed to the session of their capture graph one
    blob per block, in capture order, with nothing else of the session,
    the user-visible state or the playback scheduler changed; this does
    not depend on the session state, so it goes on after [disconnect()]
    or a close. *)
Theorem capture_blocks_sent_in_order
    (g : nat) (blocks : list (list Q)) (s : State)
    (graph : CaptureGraph) (sess : LiveSession) :
  nth_error (captureGraphs s) g = Some graph ->
  nth_error (sessions s) (graphSession graph) = Some sess ->
  exists sess',
    nth_error (sessions (run s (map (AudioProcess g) blocks)))
              (graphSession graph) = Some sess'
    /\ sent sess' = sent sess ++ map createBlob blocks
    /\ voiceName sess' = voiceName sess
    /\ closeRequested sess' = closeRequested sess
    /\ session_view (run s (map (AudioProcess g) blocks)) = session_view s
    /\ scheduler_view (run s (map (AudioProcess g) blocks))
       = scheduler_view s.
Proof. exact (run_capture g blocks s graph sess). Qed.

Lemma capture_blocks_sent_in_order_witness :
  exists sess',
    nth_error
      (sessions (run (run Samples.connectedState [Disconnect; Close])
                     (map (AudioProcess 0) [[1 # 2]; [0; -1]]%Q)))
      0 = Some sess'
    /\ sent sess' = [] ++ map createBlob [[1 # 2]; [0; -1]]%Q
    /\ voiceName sess' = "Zephyr"
    /\ closeRequested sess' = true
    /\ session_view
         (run (run Samples.connectedState [Disconnect; Close])
              (map (AudioProcess 0) [[1 # 2]; [0; -1]]%Q))
       = session_view (run Samples.connectedState [Disconnect; Close])
    /\ scheduler_view
         (run (run Samples.connectedState [Disconnect; Close])
              (map (AudioProcess 0) [[1 # 2]; [0; -1]]%Q))
       = scheduler_view (run Samples.connectedState [Disconnect; Close]).
Proof.
  exact (capture_blocks_sent_in_order 0 [[1 # 2]; [0; -1]]%Q
           (run Samples.connectedState [Disconnect; Close])
           {| graphSession := 0; graphCtx := 0; graphStream := 0;
              graphConnected := true |}
           {| voiceName := "Zephyr"; inputCtx := 0; outputCtx := 1;
              stream := 0; sent := []; closeRequested := true |}
           eq_refl eq_refl).
Defined.

(** *** Failures before the microphone is asked for *)

(** X26: When the key selection or a [resume()] rejects, [connect()] surfaces
    the error without having asked for the microphone: no stream, session
    or capture graph is added and the session promise is untouched; when
    it is the key selection that rejects, no audio context has been
    created either. *)
Theorem early_failure_acquires_no_microphone
    (env : ConnectEnv) (s : State) (err : JsError) :
  keySelection env = Rejects err
  \/ (keySelection env = Resolves
      /\ (resumeInput env = Rejects err
          \/ (resumeInput env = Resolves
              /\ resumeOutput env = Rejects err))) ->
  let s' := connect env s in
  status s' = error
  /\ errorMessage s'
     = Some (if truthy (message err) then message err
             else "Initialization failed. Ensure mic permissions are granted.")
  /\ mediaStreams s' = mediaStreams s
  /\ sessions s' = sessions s
  /\ captureGraphs s' = captureGraphs s
  /\ sessionPromiseRef s' = sessionPromiseRef s
  /\ (keySelection env = Rejects err ->
      audioContextRef s' = audioContextRef s
      /\ audioContexts s' = audioContexts s).
Proof.
  intros H.
  destruct env as [k ri ro g c]; cbn in H.
  destruct s as [? ? ? ? ? ? ref ? ? ? ? ? ? ? ? ?].
  destruct H as [-> | [-> [-> | [-> ->]]]];
    destruct ref as [[i o] |]; cbn; repeat split; discriminate.
Qed.

Lemma early_failure_acquires_no_microphone_witness :
  status (connect Samples.keyRejected initial) = error
  /\ mediaStreams (connect Samples.keyRejected initial) = []
  /\ audioContexts (connect Samples.keyRejected initial) = [].
Proof.
  pose proof (early_failure_acquires_no_microphone Samples.keyRejected
                initial {| message := "" |} (or_introl eq_refl)) as H.
  cbn zeta in H.
  destruct H as (H1 & _ & H3 & _ & _ & _ & H7).
  split; [exact H1 |]. split; [exact H3 |].
  exact (proj2 (H7 eq_refl)).
Defined.

End LifecycleTraces.

(** ** Scheduled nodes over time *)

Section ScheduledNodes.

Lemma interrupted_step_nodes (m : LiveServerMessage) (s : State)
    (n : nat) (node : SourceNode) :
  nth_error (sourceNodes s) n = Some node ->
  exists node',
    nth_error (sourceNodes (interrupted_step m s)) n = Some node'
    /\ (node' = node \/ node' = stop node).
Proof.
  intros Hn. unfold interrupted_step.
  destruct (serverContent m) as [sc |]; [| exists node; auto].
  destruct (interrupted sc); [| exists node; auto].
  destruct (stop_loop_stops (sourcesRef s) (sourceNodes s) n node Hn)
    as (node' & Hr & Hor & _).
  exists node'. split; [exact Hr | exact Hor].
Qed.

Lemma step_nodes (s : State) (e : Event) (n : nat) (node : SourceNode) :
  nth_error (sourceNodes s) n = Some node ->
  exists node',
    nth_error (sourceNodes (step s e)) n = Some node'
    /\ (node' = node \/ node' = stop node).
Proof.
  intros Hn.
  assert (Hview : forall s',
             scheduler_view s' = scheduler_view s ->
             exists node',
               nth_error (sourceNodes s') n = Some node'
               /\ (node' = node \/ node' = stop node)).
  { intros s' Hv. unfold scheduler_view in Hv. injection Hv as _ _ ->.
    exists node; auto. }
  destruct e; cbn [step].
  - apply Hview, connect_scheduler.
  - apply Hview, disconnect_scheduler.
  - apply Hview. unfold click.
    destruct (render_control (status s)) as [| []];
      auto using connect_scheduler, disconnect_scheduler.
  - apply Hview. unfold onopen; cbn.
    destruct (nth_error (sessions s) sid); reflexivity.
  - apply Hview. unfold onaudioprocess.
    destruct (nth_error (captureGraphs s) g); reflexivity.
  - unfold onmessage.
    set (s1 := turnComplete_step m clk (transcription_step m s)).
    assert (Hv : scheduler_view s1 = scheduler_view s).
    { unfold s1. rewrite turnComplete_step_scheduler.
      apply transcription_step_scheduler. }
    unfold scheduler_view in Hv. injection Hv as _ _ Hnodes.
    destruct (audio_dispatch_scheduled m clk s1) as (new & Hnew & _).
    assert (Hn2 : nth_error (sourceNodes (state_of (audio_dispatch m clk s1)))
                            n = Some node).
    { rewrite Hnew, Hnodes. rewrite nth_error_app1; [exact Hn |].
      apply nth_error_Some. congruence. }
    destruct (audio_dispatch m clk s1) as [s2 | s2]; cbn in *.
    + apply interrupted_step_nodes. exact Hn2.
    + exists node; auto.
  - apply Hview. unfold onerror. destruct (includes _ _); reflexivity.
  - apply Hview. reflexivity.
  - exists node. split; [| auto].
    unfold onended; cbn. destruct (_ =? _)%nat; exact Hn.
  - apply Hview. reflexivity.
  - apply Hview. reflexivity.
Qed.

(** X27: A buffer, once scheduled, is never rescheduled or forgotten: through
    any sequence of events it keeps its start time and duration, and once
    stopped it stays stopped. *)
Theorem scheduled_node_is_never_moved
    (evs : list Event) (s : State) (n : nat) (node : SourceNode) :
  nth_error (sourceNodes s) n = Some node ->
  exists node',
    nth_error (sourceNodes (run s evs)) n = Some node'
    /\ startTime node' = startTime node
    /\ nodeDuration node' = nodeDuration node
    /\ (stopped node = true -> stopped node' = true).
Proof.
  revert s node; induction evs as [| e evs IH]; intros s node Hn.
  - exists node. repeat split; auto.
  - cbn [run fold_left].
    destruct (step_nodes s e n node Hn) as (node1 & Hn1 & Hor).
    destruct (IH (step s e) node1 Hn1) as (node' & Hr & Hst & Hd & Hs).
    exists node'. unfold run in *. split; [exact Hr |].
    destruct Hor as [-> | ->]; cbn in *; repeat split; auto.
Qed.

Lemma scheduled_node_is_never_moved_witness :
  exists node',
    nth_error
      (sourceNodes
         (run Samples.talkingState
              [ Incoming interruptionSignal (Samples.clockAt 9 1003);
                Ended 1; Close ])) 1 = Some node'
    /\ startTime node'
       = Qmax (Qmax 0 5 + duration Samples.threeSamplesBuffer) 5
    /\ nodeDuration node' = duration Samples.threeSamplesBuffer
    /\ (false = true -> stopped node' = true).
Proof.
  exact (scheduled_node_is_never_moved
           [ Incoming interruptionSignal (Samples.clockAt 9 1003);
             Ended 1; Close ]
           Samples.talkingState 1
           {| startTime :=
                Qmax (Qmax 0 5 + duration Samples.threeSamplesBuffer) 5;
              nodeDuration := duration Samples.threeSamplesBuffer;
              stopped := false |}
           eq_refl).
Defined.

(** X28: The ['ended'] events that follow an interruption change nothing: the
    nodes that were stopped have already left the active set and the
    talking flag is already cleared. *)
Theorem stopped_nodes_end_silently
    (m : LiveServerMessage) (clk : Clock) (s : State) (order : list nat) :
  is_interruption m = true ->
  audio_ok m = true ->
  exists s',
    onmessage m clk s = Returned s'
    /\ run s' (map Ended order) = s'.
Proof.
  intros Hi Hok.
  destruct (onmessage_interruption m clk s Hi Hok)
    as (s' & Hr & Hs & _ & Ht & _).
  exists s'. split; [exact Hr |].
  assert (Hone : forall n, onended n s' = s').
  { intros n. destruct s'; cbn in *; subst. reflexivity. }
  induction order as [| n r IH]; [reflexivity |].
  cbn [map run fold_left step]. rewrite Hone. exact IH.
Qed.

Lemma stopped_nodes_end_silently_witness :
  exists s',
    onmessage interruptionSignal (Samples.clockAt 9 1003)
              Samples.talkingState = Returned s'
    /\ run s' (map Ended [0; 1; 2]%nat) = s'.
Proof.
  apply (stopped_nodes_end_silently interruptionSignal
           (Samples.clockAt 9 1003) Samples.talkingState [0; 1; 2]%nat);
    reflexivity.
Defined.

End ScheduledNodes.
